(** * sdc-napi: error taxonomy and unit-test helpers

    A shallow embedding of [lib/util/errors.js] and of the per-network
    address tracker of [test/unit/helpers.js], with the properties the
    design document states about them. *)

From Stdlib Require Import ZArith Lia Ascii.
From stdpp Require Import base option list strings gmap sorting pretty.

Local Open Scope Z_scope.
Set Warnings "-register-all".

(** ** JavaScript values *)

(** The fragment of JavaScript values that reaches the error helpers:
    primitives, arrays, plain objects and instances of [Error].  An object is
    the list of its own enumerable properties in insertion order, which is
    the order [for..in] visits them (integer-like keys, which an engine would
    visit first, are not created by the code below).  An instance of [Error]
    is its message, which is not enumerable, and the enumerable properties
    set on it; an object literal or an array is never one. *)
Inductive value : Type :=
  | VUndefined
  | VNull
  | VBool (b : bool)
  | VNum (n : Z)
  | VStr (s : string)
  | VArr (items : list value)
  | VObj (props : list (string * value))
  | VError (message : string) (props : list (string * value)).

Definition obj : Type := list (string * value).

(** What a [throw] carries. *)
Inductive exn : Type :=
  | AssertionError (what : string)
  | TypeError (what : string)
  | Error (what : string).

(** A computation that returns or throws. *)
Definition result (A : Type) : Type := (exn + A)%type.

Definition Ok {A} (a : A) : result A := inr a.
Definition Throw {A} (e : exn) : result A := inl e.

#[global] Instance result_ret : MRet result := fun _ a => inr a.
#[global] Instance result_bind : MBind result := fun _ _ f m =>
  match m with
  | inl e => inl e
  | inr a => f a
  end.

(** [o[k]] for an object [o]: the first binding of [k], else [undefined]. *)
Fixpoint obj_get (o : obj) (k : string) : value :=
  match o with
  | [] => VUndefined
  | (k', v) :: o' => if String.eqb k' k then v else obj_get o' k
  end.

(** [o.hasOwnProperty(k)] *)
Fixpoint obj_has (o : obj) (k : string) : bool :=
  match o with
  | [] => false
  | (k', _) :: o' => String.eqb k' k || obj_has o' k
  end.

(** [o[k] = v]: overwrite in place, or add the property last. *)
Fixpoint obj_set (o : obj) (k : string) (v : value) : obj :=
  match o with
  | [] => [(k, v)]
  | (k', v') :: o' =>
      if String.eqb k' k then (k', v) :: o' else (k', v') :: obj_set o' k v
  end.

(** [v.k] where [v] is known to be an object (anything but [undefined] and
    [null]): the names read below are never defined on an array, a string, a
    number or a boolean, and are not the [name] or [stack] of an error. *)
Definition prop (v : value) (k : string) : value :=
  match v with
  | VObj o => obj_get o k
  | VError m o => if String.eqb k "message" then VStr m else obj_get o k
  | _ => VUndefined
  end.

(** [v.k] for any [v]: reading a property of [undefined] or [null] throws. *)
Definition getprop (v : value) (k : string) : result value :=
  match v with
  | VUndefined => Throw (TypeError "Cannot read property of undefined")
  | VNull => Throw (TypeError "Cannot read property of null")
  | _ => Ok (prop v k)
  end.

(** ToBoolean *)
Definition truthy (v : value) : bool :=
  match v with
  | VUndefined | VNull => false
  | VBool b => b
  | VNum n => negb (n =? 0)
  | VStr s => negb (String.eqb s EmptyString)
  | VArr _ | VObj _ | VError _ _ => true
  end.

(** [a || b] *)
Definition js_or (a b : value) : value := if truthy a then a else b.

(** ToNumber on the primitives that have an integer value; [None] is NaN. *)
Definition to_number (v : value) : option Z :=
  match v with
  | VNull => Some 0
  | VBool b => Some (if b then 1 else 0)
  | VNum n => Some n
  | _ => None
  end.

(** [a < b].  Two strings are compared by code units; otherwise both sides
    are converted to numbers, and a comparison with NaN ([undefined]) is
    false.  The conversions of a string or an object to a number are not
    modelled: the statements below are about operands that are both strings
    or both [undefined]. *)
Definition js_lt (a b : value) : bool :=
  match a, b with
  | VStr x, VStr y => String.ltb x y
  | _, _ =>
      match to_number a, to_number b with
      | Some x, Some y => x <? y
      | _, _ => false
      end
  end.

(** [a > b] *)
Definition js_gt (a b : value) : bool := js_lt b a.

(** [v instanceof Error] *)
Definition isError (v : value) : bool :=
  match v with
  | VError _ _ => true
  | _ => false
  end.

(** The own enumerable properties [for (var e in v)] visits. *)
Definition enum_props (v : value) : obj :=
  match v with
  | VObj o => o
  | VError _ o => o
  | VArr items => imap (fun i x => (pretty i, x)) items
  | VStr s =>
      imap (fun i c => (pretty i, VStr (String c EmptyString)))
           (String.list_ascii_of_string s)
  | _ => []
  end.

(** [for (var e in extra) { param[e] = extra[e]; }] *)
Definition copy_props (extra : value) (param : obj) : obj :=
  foldl (fun p kv => obj_set p (fst kv) (snd kv)) param (enum_props extra).

(** [Array.prototype.join] on an array of strings. *)
Fixpoint join (sep : string) (l : list string) : string :=
  match l with
  | [] => EmptyString
  | [x] => x
  | x :: l' => x +:+ sep +:+ join sep l'
  end.

(** [Array.prototype.sort(comparefn)] for a consistent comparison function:
    the stable sort ECMAScript 2019 specifies, as insertion from the right;
    [x] goes before the first element that [comparefn] puts strictly after
    it.  With a comparison function that is not consistent the order an
    engine produces is implementation-defined, and is not what is defined
    here. *)
Fixpoint sort_insert (comparefn : value -> value -> Z) (x : value)
    (l : list value) : list value :=
  match l with
  | [] => [x]
  | y :: l' =>
      if comparefn x y <=? 0 then x :: y :: l'
      else y :: sort_insert comparefn x l'
  end.

Definition Array_sort (comparefn : value -> value -> Z) (l : list value)
    : list value :=
  foldr (sort_insert comparefn) [] l.

(** [util.format] for a format string whose directives are [%s] (and [%%]),
    applied to strings: arguments left over are appended after a space. *)
Fixpoint format_go (f : list ascii) (args : list string) : string :=
  match f with
  | [] => foldl (fun acc a => acc +:+ " " +:+ a) EmptyString args
  | "%"%char :: "s"%char :: f' =>
      match args with
      | a :: args' => a +:+ format_go f' args'
      | [] => "%s" +:+ format_go f' []
      end
  | "%"%char :: "%"%char :: f' => "%" +:+ format_go f' args
  | c :: f' => String c (format_go f' args)
  end.

Definition util_format (f : string) (args : list string) : string :=
  format_go (String.list_ascii_of_string f) args.

(** ** assert-plus *)

Module assert.

Definition is_object (v : value) : bool :=
  match v with
  | VArr _ | VObj _ | VError _ _ => true
  | _ => false
  end.

Definition is_string (v : value) : bool :=
  match v with
  | VStr _ => true
  | _ => false
  end.

Definition is_bool (v : value) : bool :=
  match v with
  | VBool _ => true
  | _ => false
  end.

Definition is_nullish (v : value) : bool :=
  match v with
  | VUndefined | VNull => true
  | _ => false
  end.

Definition is_hex (c : ascii) : bool :=
  let n := N_of_ascii c in
  ((48 <=? n) && (n <=? 57) || (65 <=? n) && (n <=? 70)
   || (97 <=? n) && (n <=? 102))%N.

(** [/^[a-fA-F0-9]{8}-[a-fA-F0-9]{4}-[a-fA-F0-9]{4}-[a-fA-F0-9]{4}-[a-fA-F0-9]{12}$/] *)
Fixpoint uuid_chars (i : nat) (cs : list ascii) : bool :=
  match cs with
  | [] => Nat.eqb i 36
  | c :: cs' =>
      (if Nat.eqb i 8 || Nat.eqb i 13 || Nat.eqb i 18 || Nat.eqb i 23
       then Ascii.eqb c "-" else is_hex c)
      && uuid_chars (S i) cs'
  end.

Definition is_uuid (s : string) : bool :=
  uuid_chars 0 (String.list_ascii_of_string s).

Definition check (b : bool) (name : string) : result unit :=
  if b then Ok tt else Throw (AssertionError name).

Definition ok (v : value) (name : string) : result unit :=
  check (truthy v) name.

Definition object (v : value) (name : string) : result unit :=
  check (is_object v) name.

Definition string (v : value) (name : string) : result unit :=
  check (is_string v) name.

Definition uuid (v : value) (name : String.string) : result unit :=
  check (match v with VStr s => is_uuid s | _ => false end) name.

Definition optionalString (v : value) (name : String.string) : result unit :=
  check (is_nullish v || is_string v) name.

Definition optionalObject (v : value) (name : String.string) : result unit :=
  check (is_nullish v || is_object v) name.

Definition optionalBool (v : value) (name : String.string) : result unit :=
  check (is_nullish v || is_bool v) name.

Definition arrayOfObject (v : value) (name : String.string) : result unit :=
  check (match v with VArr l => forallb is_object l | _ => false end) name.

Definition arrayOfString (v : value) (name : String.string) : result unit :=
  check (match v with VArr l => forallb is_string l | _ => false end) name.

End assert.

(** ** lib/util/constants.js

    The message constants [errors.js] reads.  The file is not part of this
    development, so its strings are left open. *)
Record Constants : Type := {
  SUBNET_FULL_MSG : string;
  SUBNETS_EXHAUSTED_MSG : string;
  fmt_POOL_FULL_MSG : string;
  msg_INVALID_PARAMS : string;
  msg_UNKNOWN_PARAMS : string
}.

(** A sample of the constants, for the worked examples. *)
Definition sample_constants : Constants := {|
  SUBNET_FULL_MSG := "No more free IPs";
  SUBNETS_EXHAUSTED_MSG := "No more free subnets";
  fmt_POOL_FULL_MSG := "No more free IPs in pool %s";
  msg_INVALID_PARAMS := "Invalid parameters";
  msg_UNKNOWN_PARAMS := "Unknown parameters"
|}.

(** A sample of restify's names for status codes. *)
Definition sample_codeToErrorName (code : value) : string :=
  match code with
  | VNum 409 => "ConflictError"
  | VNum 422 => "UnprocessableEntityError"
  | VNum 500 => "InternalServerError"
  | VNum 507 => "InsufficientStorageError"
  | _ => "Error"
  end.

(** [MSG] *)
Definition MSG_duplicate : string := "Already exists".
Definition MSG_internal : string := "Internal error".
Definition MSG_missingParam : string := "Missing parameter".
Definition MSG_missingParams : string := "Missing parameters".

Section Errors.

Variable constants : Constants.

(** restify's name for a status code (e.g. [InternalServerError]), used
    only for the body of an error built without one. *)
Variable codeToErrorName : value -> string.

(** *** restify (the library's error classes, as [errors.js] calls them)

    [HttpError(options)]: a cause, when one is given, must be an instance
    of [Error] (the check of the [WError] it builds on); the status code
    defaults to 500, the body to a code and message pair; the cause is what
    [err.cause()] returns. *)
Definition HttpError (this : obj) (options : obj) : result obj :=
  let cause := obj_get options "cause" in
  (if truthy cause then assert.check (isError cause) "cause is not an Error"
   else Ok tt) ;;
  let message := js_or (obj_get options "message") (VStr EmptyString) in
  let code := js_or (obj_get options "statusCode") (VNum 500) in
  let this := obj_set this "cause" cause in
  let this := obj_set this "statusCode" code in
  let this :=
    obj_set this "body"
      (js_or (obj_get options "body")
             (VObj [("code", VStr (codeToErrorName code));
                    ("message", message)])) in
  Ok (obj_set this "message" message).

(** [RestError(options)] adds the REST code. *)
Definition RestError (this : obj) (options : obj) : result obj :=
  this ← HttpError this options ;
  let restCode := js_or (obj_get options "restCode") (VStr "Error") in
  let this := obj_set this "restCode" restCode in
  Ok (obj_set this "body"
        (js_or (obj_get options "body")
               (VObj [("code", restCode);
                      ("message", obj_get this "message")]))).

(** [InternalServerError], one of the classes restify generates per HTTP
    status: called on an options object it keeps the body, cause and
    message, and a status code if one is given. *)
Definition InternalServerError (this : obj) (options : obj) : result obj :=
  HttpError this
    [("body", obj_get options "body");
     ("cause", obj_get options "cause");
     ("message", obj_get options "message");
     ("statusCode", js_or (obj_get options "statusCode") (VNum 500))].

(** [InvalidArgumentError], one of the classes restify generates per REST
    code (409 by default). *)
Definition InvalidArgumentError (this : obj) (options : obj) : result obj :=
  RestError this
    [("restCode", VStr "InvalidArgument");
     ("statusCode", js_or (obj_get options "statusCode") (VNum 409));
     ("body", obj_get options "body");
     ("cause", obj_get options "cause");
     ("message", obj_get options "message")].

(** *** Error classes

    A constructor takes [this] first, as in [C.call(this, ...)]; [new C(...)]
    starts from the empty object. *)

Definition InternalError (this : obj) (cause message : value) : result obj :=
  assert.object cause "cause" ;;
  assert.optionalString message "message" ;;
  let message :=
    if negb (truthy message) then VStr MSG_internal else message in
  InternalServerError this
    [("cause", cause);
     ("message", message);
     ("restCode", VStr "InternalError");
     ("body", VObj [("code", VStr "InternalError");
                    ("message", message)])].

Definition InvalidParamsError (this : obj) (message errors : value)
    : result obj :=
  assert.string message "message" ;;
  assert.arrayOfObject errors "errors" ;;
  this ←
    RestError this
      [("restCode", VStr "InvalidParameters");
       ("statusCode", VNum 422);
       ("message", message);
       ("body", VObj [("code", VStr "InvalidParameters");
                      ("message", message);
                      ("errors", errors)])] ;
  Ok (obj_set this "name" (VStr "InvalidParamsError")).

Definition InUseError (this : obj) (message errors : value) : result obj :=
  assert.string message "message" ;;
  assert.arrayOfObject errors "errors" ;;
  this ←
    InvalidArgumentError this
      [("restCode", VStr "InUse");
       ("statusCode", VNum 422);
       ("message", message);
       ("body", VObj [("code", VStr "InUse");
                      ("message", message);
                      ("errors", errors)])] ;
  Ok (obj_set this "name" (VStr "InUseError")).

Definition SubnetFullError (this : obj) (network_uuid : value) : result obj :=
  assert.uuid network_uuid "network_uuid" ;;
  this ←
    RestError this
      [("restCode", VStr "SubnetFull");
       ("statusCode", VNum 507);
       ("message", VStr (SUBNET_FULL_MSG constants));
       ("body", VObj [("code", VStr "SubnetFull");
                      ("message", VStr (SUBNET_FULL_MSG constants));
                      ("network_uuid", network_uuid)])] ;
  let this := obj_set this "name" (VStr "SubnetFullError") in
  let this := obj_set this "network_uuid" network_uuid in
  Ok (obj_set this "stop" (VBool true)).

Definition SubnetsExhaustedError (this : obj) : result obj :=
  this ←
    RestError this
      [("restCode", VStr "SubnetsExhausted");
       ("statusCode", VNum 507);
       ("message", VStr (SUBNETS_EXHAUSTED_MSG constants));
       ("body", VObj [("code", VStr "SubnetsExhausted");
                      ("message", VStr (SUBNETS_EXHAUSTED_MSG constants))])] ;
  let this := obj_set this "name" (VStr "SubnetsExhaustedError") in
  Ok (obj_set this "stop" (VBool true)).

(** *** Elements of a response's errors array *)

Definition sortById (a b : value) : Z :=
  if js_lt (prop a "id") (prop b "id") then -1
  else if js_gt (prop a "id") (prop b "id") then 1
  else 0.

Definition duplicateParam (field message : value) : result value :=
  assert.string field "field" ;;
  Ok (VObj [("field", field);
            ("code", VStr "Duplicate");
            ("message", js_or message (VStr MSG_duplicate))]).

Definition invalidParam (field message extra : value) : result value :=
  assert.string field "field" ;;
  let param :=
    [("field", field);
     ("code", VStr "InvalidParameter");
     ("message", js_or message (VStr (msg_INVALID_PARAMS constants)))] in
  Ok (VObj (if truthy extra then copy_props extra param else param)).

Definition PoolFullError (this : obj) (field pool_uuid : value) : result obj :=
  assert.string field "field" ;;
  assert.uuid pool_uuid "network_uuid" ;;
  let msg :=
    util_format (fmt_POOL_FULL_MSG constants)
      [match pool_uuid with VStr s => s | _ => EmptyString end] in
  e ← invalidParam field (VStr msg) VUndefined ;
  this ← InvalidParamsError this (VStr "Invalid parameters") (VArr [e]) ;
  let this := obj_set this "pool_uuid" pool_uuid in
  Ok (obj_set this "stop" (VBool false)).

Definition unknownParams (params message extra : value) : result value :=
  assert.arrayOfString params "params" ;;
  assert.optionalString message "message" ;;
  assert.optionalObject extra "extra" ;;
  let msg :=
    match js_or message (VStr (msg_UNKNOWN_PARAMS constants)) with
    | VStr s => s
    | _ => EmptyString
    end in
  let names :=
    match params with
    | VArr l => omap (fun v => match v with VStr s => Some s | _ => None end) l
    | _ => []
    end in
  let msg := msg +:+ ": " +:+ join ", " names in
  let param :=
    [("field", params);
     ("code", VStr "UnknownParameters");
     ("message", VStr msg)] in
  Ok (VObj (if truthy extra then copy_props extra param else param)).

Definition missingParam (field message : value) : result value :=
  assert.string field "field" ;;
  Ok (VObj [("field", field);
            ("code", VStr "MissingParameter");
            ("message", js_or message (VStr MSG_missingParam))]).

Definition usedBy (type id message : value) : result obj :=
  assert.string type "type" ;;
  assert.string id "id" ;;
  let str v := match v with VStr s => s | _ => EmptyString end in
  Ok [("type", type);
      ("id", id);
      ("code", VStr "UsedBy");
      ("message",
       js_or message
         (VStr (util_format
                  ("In use by %s " +:+ String "034"%char "%s"
                     +:+ String "034"%char EmptyString)
                  [str type; str id])))].

Definition usedByParam (field type id message : value) : result value :=
  assert.string field "field" ;;
  paramErr ← usedBy type id message ;
  Ok (VObj (obj_set paramErr "field" field)).

(** [nets.map(f)] for a callback that may throw; anything but an array has
    no [map]. *)
Definition Array_map (f : value -> result value) (nets : value)
    : result (list value) :=
  match nets with
  | VArr l => mapM f l
  | _ => Throw (TypeError "map is not a function")
  end.

Definition networkOverlapParams (nets : value) : result value :=
  errs ← Array_map
    (fun net =>
       uuid ← getprop net "uuid" ;
       usedByParam (VStr "subnet") (VStr "network") uuid
         (VStr "subnet overlaps with another network"))
    nets ;
  Ok (VArr (Array_sort sortById errs)).

Definition nictagMtuInvalidForNetworks (nets : value) : result value :=
  errs ← Array_map
    (fun net =>
       uuid ← getprop net "uuid" ;
       invalidParam (VStr "mtu")
         (VStr "nic_tag mtu must be greater than its networks")
         (VObj [("uuid", uuid)]))
    nets ;
  Ok (VArr (Array_sort sortById errs)).

(** The comparison function [sortErrsByField] sorts with. *)
Definition byField (a b : value) : Z :=
  if js_lt (prop a "field") (prop b "field") then -1
  else if js_gt (prop a "field") (prop b "field") then 1
  else 0.

(** [sortErrsByField] sorts its argument in place and returns nothing: the
    result here is the array's content after the call. *)
Definition sortErrsByField (errs : value) : result value :=
  assert.arrayOfObject errs "errs" ;;
  match errs with
  | VArr l => Ok (VArr (Array_sort byField l))
  | _ => Ok errs
  end.

End Errors.

(** ** lib/util/ip.js *)

(** Modelled from the spec: [lib/util/ip.js] is not among the sources.  Its
    section on address arithmetic gives [parse], [toText] and [increment]; an
    IPv4 address is its 32-bit value, and an increment that leaves the
    family's range is an error, not a rollover. *)
Module ip4.

Definition is_digit (c : ascii) : bool :=
  let n := N_of_ascii c in ((48 <=? n) && (n <=? 57))%N.

Definition digit (c : ascii) : Z := Z.of_N (N_of_ascii c) - 48.

(** Octets of a dotted quad, left to right; [cur] is the octet being read. *)
Fixpoint octets (cs : list ascii) (cur : option Z) (acc : list Z)
    : option (list Z) :=
  match cs with
  | [] =>
      match cur with
      | Some n => Some (acc ++ [n])
      | None => None
      end
  | c :: cs' =>
      if Ascii.eqb c "." then
        match cur with
        | Some n => octets cs' None (acc ++ [n])
        | None => None
        end
      else if is_digit c then
        let n := 10 * default 0 cur + digit c in
        if n <=? 255 then octets cs' (Some n) acc else None
      else None
  end.

Definition toIPAddr (s : string) : option Z :=
  match octets (String.list_ascii_of_string s) None [] with
  | Some [a; b; c; d] => Some (((a * 256 + b) * 256 + c) * 256 + d)
  | _ => None
  end.

Definition toString (a : Z) : string :=
  pretty (Z.shiftr a 24) +:+ "." +:+
  pretty (Z.land (Z.shiftr a 16) 255) +:+ "." +:+
  pretty (Z.land (Z.shiftr a 8) 255) +:+ "." +:+
  pretty (Z.land a 255).

Definition ipAddrPlus (a : Z) (n : Z) : result Z :=
  if (0 <=? a + n) && (a + n <? 2 ^ 32) then Ok (a + n)
  else Throw (Error "address overflow").

End ip4.

(** ** test/unit/helpers.js *)

(** The network objects the tests pass around; only the two properties the
    tracker reads.  A network's UUID is a string. *)
Record network : Type := {
  uuid : string;
  provision_start_ip : value
}.

Section Helpers.

(** [lib/util/ip.js], left open here: an address type, [toIPAddr] (null
    when the text is no address), [ipAddrPlus] and [addr.toString()]. *)
Variable IPAddr : Type.
Variable toIPAddr : string -> option IPAddr.
Variable ipAddrPlus : IPAddr -> Z -> result IPAddr.
Variable toString : IPAddr -> string.

(** The module's globals.  [NET_IPS] is an object used as a map from a
    network's UUID to an address or null ([None]); its own properties are
    a finite map (UUIDs are not names of [Object.prototype]). *)
Record globals : Type := {
  NET_NUM : Z;
  NET_IPS : gmap string (option IPAddr)
}.

(** A function of the module: reads and writes the globals, returns or
    throws.  What was written before a throw stays written. *)
Definition helper (A : Type) : Type := globals -> globals * result A.

#[local] Instance helper_ret : MRet helper := fun _ a g => (g, Ok a).
#[local] Instance helper_bind : MBind helper := fun _ _ f m g =>
  match m g with
  | (g', inl e) => (g', inl e)
  | (g', inr a) => f a g'
  end.

Definition lift {A} (r : result A) : helper A := fun g => (g, r).

Definition read_NET_IPS : helper (gmap string (option IPAddr)) :=
  fun g => (g, Ok (NET_IPS g)).

(** [NET_IPS[k] = v] *)
Definition write_NET_IPS (k : string) (v : option IPAddr) : helper unit :=
  fun g => ({| NET_NUM := NET_NUM g; NET_IPS := <[k := v]> (NET_IPS g) |},
            Ok tt).

(** A member access on [curr]: a TypeError when it is null. *)
Definition deref (curr : option IPAddr) : result IPAddr :=
  match curr with
  | Some a => Ok a
  | None => Throw (TypeError "Cannot read property of null")
  end.

Definition reset : helper unit :=
  fun _ => ({| NET_NUM := 2; NET_IPS := ∅ |}, Ok tt).

Definition nextProvisionableIP (net : network) (willFail : value)
    : helper string :=
  lift (assert.optionalBool willFail "willFail") ;;
  ips ← read_NET_IPS ;
  (if negb (bool_decide (is_Some (ips !! uuid net))) then
     lift (assert.string (provision_start_ip net) "net.provision_start_ip") ;;
     let ip :=
       match provision_start_ip net with
       | VStr s => toIPAddr s
       | _ => None
       end in
     write_NET_IPS (uuid net) ip ;;
     lift (assert.check (bool_decide (is_Some ip)) "NET_IPS[net.uuid]")
   else mret tt) ;;
  ips ← read_NET_IPS ;
  let curr := default None (ips !! uuid net) in
  (if negb (truthy willFail) then
     next ← lift (a ← deref curr ; ipAddrPlus a 1) ;
     write_NET_IPS (uuid net) (Some next)
   else mret tt) ;;
  lift (a ← deref curr ; Ok (toString a)).

End Helpers.

Arguments NET_NUM {IPAddr} _.
Arguments NET_IPS {IPAddr} _.
Arguments nextProvisionableIP {IPAddr} _ _ _ _ _ _.

(** ** The allocation engine *)

(** Modelled from the spec: the allocation engine ([allocate], [allocatePool]
    and the backing store they write to) is not among the sources.  The
    definitions follow the design document's section on the engine: a scan
    of the provisioning range from a candidate start, wrapping at
    [provision_end_ip], bounded by one traversal of the range, reserving
    with the store's insert-if-absent; a pool tries its members in order and
    raises [PoolFullError] with [stop] set once every member was full.
    Addresses are the numeric values of one address family. *)
Module Engine.

(** A CIDR prefix of an address family of [bits] bits. *)
Record Subnet : Type := {
  prefix : Z;
  plen : Z;
  bits : Z
}.

Definition contains (s : Subnet) (a : Z) : bool :=
  Z.shiftr a (bits s - plen s) =? Z.shiftr (prefix s) (bits s - plen s).

Record Network : Type := {
  uuid : string;
  subnet : Subnet;
  provision_start_ip : Z;
  provision_end_ip : Z
}.

(** [provision_start_ip ≤ provision_end_ip], both within [subnet]. *)
Definition valid (net : Network) : Prop :=
  provision_start_ip net <= provision_end_ip net
  /\ contains (subnet net) (provision_start_ip net) = true
  /\ contains (subnet net) (provision_end_ip net) = true.

(** [a] lies in the inclusive provisioning range of [net]. *)
Definition in_range (net : Network) (a : Z) : Prop :=
  provision_start_ip net <= a <= provision_end_ip net.

Record Pool : Type := {
  pool_uuid : string;
  networks : list Network
}.

Inductive ip_state : Type := free | reserved | provisioning | used.

(** The IP records of the backing store, keyed by network and address. *)
Definition store : Type := gmap (string * Z) ip_state.

Inductive put_result : Type := Created | Conflict.

Definition putIfAbsent (st : store) (k : string * Z) (r : ip_state)
    : store * put_result :=
  match st !! k with
  | Some _ => (st, Conflict)
  | None => (<[k := r]> st, Created)
  end.

Definition non_free (st : store) (k : string * Z) : bool :=
  match st !! k with
  | Some free | None => false
  | Some _ => true
  end.

(** The address after [a] in the scan. *)
Definition next (net : Network) (a : Z) : Z :=
  if a =? provision_end_ip net then provision_start_ip net else a + 1.

(** At most [fuel] addresses from [cand] on; [None] when none was free. *)
Fixpoint scan (net : Network) (exclude : gset Z) (fuel : nat) (cand : Z)
    (st : store) : store * option Z :=
  match fuel with
  | O => (st, None)
  | S fuel' =>
      if bool_decide (cand ∈ exclude) || non_free st (uuid net, cand) then
        scan net exclude fuel' (next net cand) st
      else
        match putIfAbsent st (uuid net, cand) provisioning with
        | (st', Created) => (st', Some cand)
        | (st', Conflict) => scan net exclude fuel' (next net cand) st'
        end
  end.

(** One allocation request: the addresses to avoid and the offset of the
    candidate start within the range (the engine's choice). *)
Record request : Type := {
  exclude : gset Z;
  offset : Z
}.

(** [inl u] is the failure [SubnetFull] for network [u]. *)
Definition allocate (net : Network) (req : request) (st : store)
    : store * (string + Z) :=
  let size := provision_end_ip net - provision_start_ip net + 1 in
  let cand := provision_start_ip net + offset req `mod` size in
  match scan net (exclude req) (Z.to_nat size) cand st with
  | (st', Some a) => (st', inr a)
  | (st', None) => (st', inl (uuid net))
  end.

(** The results of a sequence of requests against one network. *)
Fixpoint allocate_all (net : Network) (reqs : list request) (st : store)
    : list (string + Z) :=
  match reqs with
  | [] => []
  | req :: reqs' =>
      let '(st', r) := allocate net req st in
      r :: allocate_all net reqs' st'
  end.

Definition release (k : string * Z) (st : store) : store := delete k st.

Section Pools.

Variable constants : Constants.
Variable codeToErrorName : value -> string.

(** The terminal failure of a pool: the error as constructed, with its
    [stop] flag flipped. *)
Definition pool_full (field : string) (pool : Pool) : result obj :=
  e ← PoolFullError constants codeToErrorName []
        (VStr field) (VStr (pool_uuid pool)) ;
  Ok (obj_set e "stop" (VBool true)).

(** The members still to try; [tried] lists the ones tried so far. *)
Fixpoint try_members (field : string) (pool : Pool) (req : request)
    (nets : list Network) (tried : list string) (st : store)
    : store * list string * (result obj + string * Z) :=
  match nets with
  | [] => (st, tried, inl (pool_full field pool))
  | net :: nets' =>
      match allocate net req st with
      | (st', inr a) => (st', tried ++ [uuid net], inr (uuid net, a))
      | (st', inl _) =>
          try_members field pool req nets' (tried ++ [uuid net]) st'
      end
  end.

(** The store after the call, the members tried, and the address (with
    its network) or the failure raised. *)
Definition allocatePool (field : string) (pool : Pool) (req : request)
    (st : store) : store * list string * (result obj + string * Z) :=
  try_members field pool req (networks pool) [] st.

End Pools.

End Engine.

(** ** Vocabulary of the statements *)

(** The string a value holds. *)
Definition str_of (v : value) : string :=
  match v with
  | VStr s => s
  | _ => EmptyString
  end.

(** [new C(...)]: the constructor runs on a fresh object. *)
Definition new {A} (C : obj -> A) : A := C [].

(** The element [networkOverlapParams] builds for the network [u]. *)
Definition overlap_error (u : string) : value :=
  VObj [("type", VStr "network");
        ("id", VStr u);
        ("code", VStr "UsedBy");
        ("message", VStr "subnet overlaps with another network");
        ("field", VStr "subnet")].

(** The element [nictagMtuInvalidForNetworks] builds for a network whose
    [uuid] property is [u]. *)
Definition mtu_error (u : value) : value :=
  VObj [("field", VStr "mtu");
        ("code", VStr "InvalidParameter");
        ("message", VStr "nic_tag mtu must be greater than its networks");
        ("uuid", u)].

(** Order of two error objects by a string property. *)
Definition le_by (k : string) (a b : value) : Prop :=
  String.le (str_of (prop a k)) (str_of (prop b k)).

(** The elements of [l] whose property [k] is the string [s], in order. *)
Definition with_key (k s : string) (l : list value) : list value :=
  filter (fun e => str_of (prop e k) = s) l.

Section Tracker.

Context {IPAddr : Type}.
Variable toIPAddr : string -> option IPAddr.

(** The next provisionable address of a network as the tracker sees it:
    the recorded one, or the start of the range before the first call. *)
Definition tracker (g : globals IPAddr) (net : network) : option IPAddr :=
  match NET_IPS g !! uuid net with
  | Some a => a
  | None =>
      match provision_start_ip net with
      | VStr s => toIPAddr s
      | _ => None
      end
  end.

(** The globals with the tracker of [net] at [a]. *)
Definition set_tracker (g : globals IPAddr) (net : network) (a : IPAddr)
    : globals IPAddr :=
  {| NET_NUM := NET_NUM g;
     NET_IPS := <[uuid net := Some a]> (NET_IPS g) |}.

End Tracker.

(** A sample network of the tests, its tracker not yet started, and a
    sample network and pool of the engine. *)
Definition sample_net : network := {|
  uuid := "3c7f5393-7c69-4c7c-bc81-cb7aca031ff1";
  provision_start_ip := VStr "10.0.2.1"
|}.

Definition sample_globals : globals Z := {| NET_NUM := 2; NET_IPS := ∅ |}.

Definition sample_network : Engine.Network := {|
  Engine.uuid := "3c7f5393-7c69-4c7c-bc81-cb7aca031ff1";
  Engine.subnet := {| Engine.prefix := 167772672; Engine.plen := 24;
                      Engine.bits := 32 |};
  Engine.provision_start_ip := 167772673;
  Engine.provision_end_ip := 167772926
|}.

Definition sample_request (off : Z) : Engine.request :=
  {| Engine.exclude := ∅; Engine.offset := off |}.

(** A network of one address, and a pool of two such networks. *)
Definition one_address_network (u : string) (a : Z) : Engine.Network := {|
  Engine.uuid := u;
  Engine.subnet := {| Engine.prefix := a; Engine.plen := 32;
                      Engine.bits := 32 |};
  Engine.provision_start_ip := a;
  Engine.provision_end_ip := a
|}.

Definition sample_pool : Engine.Pool := {|
  Engine.pool_uuid := "930896af-bf8c-48d4-885c-6573a94b1853";
  Engine.networks :=
    [one_address_network "3c7f5393-7c69-4c7c-bc81-cb7aca031ff1" 167772673;
     one_address_network "0e56fe34-39a3-42d5-86c7-d719487f892b" 167772929]
|}.

(** ** test/unit/helpers.js: the other helpers *)

Module helpers.

(** [util.format] for a format string whose directives are [%d] (and [%%]),
    applied to integers: arguments left over are appended after a space. *)
Fixpoint format_d (f : list ascii) (args : list Z) : string :=
  match f with
  | [] => foldl (fun acc a => acc +:+ " " +:+ pretty a) EmptyString args
  | "%"%char :: "d"%char :: f' =>
      match args with
      | a :: args' => pretty a +:+ format_d f' args'
      | [] => "%d" +:+ format_d f' []
      end
  | "%"%char :: "%"%char :: f' => "%" +:+ format_d f' args
  | c :: f' => String c (format_d f' args)
  end.

Definition util_format_d (f : string) (args : list Z) : string :=
  format_d (String.list_ascii_of_string f) args.

(** [copyParams(from, to)] for an object [to]: the result is [to] after the
    call. *)
Definition copyParams (from : value) (to : obj) : obj := copy_props from to.

Definition fieldSort (a b : value) : Z :=
  if js_gt (prop a "field") (prop b "field") then 1 else -1.

Definition ipSort (a b : value) : Z :=
  if js_gt (prop a "ip") (prop b "ip") then 1 else -1.

Definition missingParam (field message : value) : result value :=
  assert.string field "field" ;;
  assert.optionalString message "message" ;;
  Ok (VObj [("code", VStr "MissingParameter");
            ("field", field);
            ("message", js_or message (VStr "Missing parameter"))]).

Definition validIPparams (override : value) : value :=
  let newIP :=
    [("belongs_to_type", VStr "zone");
     ("belongs_to_uuid", VStr "3c7f5393-7c69-4c7c-bc81-cb7aca031ff1");
     ("owner_uuid", VStr "930896af-bf8c-48d4-885c-6573a94b1853")] in
  VObj (copy_props override newIP).

Definition validNicparams (override : value) : value :=
  let newNic :=
    [("belongs_to_type", VStr "zone");
     ("belongs_to_uuid", VStr "3c7f5393-7c69-4c7c-bc81-cb7aca031ff1");
     ("owner_uuid", VStr "930896af-bf8c-48d4-885c-6573a94b1853")] in
  VObj (copy_props override newNic).

Section Networks.

Context {IPAddr : Type}.

(** [constants.MTU_DEFAULT], left open. *)
Variable MTU_DEFAULT : value.

(** The object [validIPv4NetworkParams] starts from when the counter is at
    [n]. *)
Definition newNet (n : Z) : obj :=
  [("name", VStr ("myname" +:+ pretty n));
   ("nic_tag", VStr "nic_tag");
   ("provision_end_ip", VStr (util_format_d "10.0.%d.254" [n]));
   ("provision_start_ip", VStr (util_format_d "10.0.%d.1" [n]));
   ("resolvers", VArr [VStr "8.8.8.8"; VStr "8.8.4.4"]);
   ("subnet", VStr (util_format_d "10.0.%d.0/24" [n]));
   ("vlan_id", VNum 0);
   ("mtu", MTU_DEFAULT)].

(** [validIPv4NetworkParams(override)] reads the counter [NET_NUM] and
    leaves it one higher. *)
Definition validIPv4NetworkParams (override : value)
    : helper IPAddr value :=
  fun g =>
    ({| NET_NUM := NET_NUM g + 1; NET_IPS := NET_IPS g |},
     Ok (VObj (copy_props override (newNet (NET_NUM g))))).

End Networks.

Section Calls.

Context {IPAddr : Type}.
Variable toIPAddr : string -> option IPAddr.
Variable ipAddrPlus : IPAddr -> Z -> result IPAddr.
Variable toString : IPAddr -> string.

(** [n] calls of [nextProvisionableIP(net)] in a row: the globals after the
    last one and what each call returned or threw. *)
Fixpoint calls (net : network) (n : nat) (g : globals IPAddr)
    : globals IPAddr * list (result string) :=
  match n with
  | O => (g, [])
  | S n' =>
      let '(g1, r) :=
        nextProvisionableIP toIPAddr ipAddrPlus toString net VUndefined g in
      let '(g2, rs) := calls net n' g1 in
      (g2, r :: rs)
  end.

End Calls.

End helpers.

(** The keys of the properties [for..in] visits are distinct, as the keys of
    an object are. *)
Definition distinct_keys (v : value) : Prop := NoDup (enum_props v).*1.

(** The [uuid] of a network object, when it is a string. *)
Definition uuid_of (net : value) : string := str_of (prop net "uuid").

(** * Properties *)

(** ** Objects and assertions *)

Lemma obj_get_set_eq o k v : obj_get (obj_set o k v) k = v.
Proof.
  induction o as [|[k' v'] o IH]; simpl.
  - by rewrite String.eqb_refl.
  - destruct (String.eqb k' k) eqn:E; simpl; rewrite E; [done | apply IH].
Qed.

Lemma obj_get_set_ne o k k' v :
  k <> k' -> obj_get (obj_set o k v) k' = obj_get o k'.
Proof.
  intros Hne. induction o as [|[k0 v0] o IH]; simpl.
  - destruct (String.eqb k k') eqn:E; [|done].
    by apply String.eqb_eq in E.
  - destruct (String.eqb k0 k) eqn:E; simpl.
    + apply String.eqb_eq in E as ->.
      destruct (String.eqb k k') eqn:E'; [|done].
      by apply String.eqb_eq in E'.
    + by rewrite IH.
Qed.

(** A property the extra object does not define survives the copy. *)
Lemma obj_get_copy_props extra param k :
  obj_has (enum_props extra) k = false ->
  obj_get (copy_props extra param) k = obj_get param k.
Proof.
  unfold copy_props. generalize (enum_props extra) as ps.
  intros ps. revert param.
  induction ps as [|[k' v'] ps IH]; intros param H; simpl in *; [done|].
  apply orb_false_iff in H as [Hk Hps].
  rewrite IH by done. apply obj_get_set_ne.
  intros ->. by rewrite String.eqb_refl in Hk.
Qed.



Lemma has_string_is_object k e :
  assert.is_string (prop e k) = true -> assert.is_object e = true.
Proof. by destruct e. Qed.

Example is_uuid_sample :
  assert.is_uuid "3c7f5393-7c69-4c7c-bc81-cb7aca031ff1" = true
  /\ assert.is_uuid "3c7f5393-7c69-4c7c-bc81-cb7aca031ffg" = false
  /\ assert.is_uuid "network" = false.
Proof. repeat split. Qed.

Example util_format_sample :
  util_format "No more free IPs in pool %s" ["abc"]
  = "No more free IPs in pool abc".
Proof. reflexivity. Qed.

(** ** Error classes *)

Section ErrorFacts.

Variable C : Constants.
Variable nm : value -> string.

(** C1: every error a constructor returns carries the status code of its
    kind: 422 for [InvalidParamsError], [InUseError] and [PoolFullError],
    507 for [SubnetFullError] and [SubnetsExhaustedError], 500 for
    [InternalError]. *)
Theorem status_codes :
  (forall m errs e,
     new (InvalidParamsError nm) m errs = Ok e ->
     obj_get e "statusCode" = VNum 422)
  /\ (forall m errs e,
        new (InUseError nm) m errs = Ok e ->
        obj_get e "statusCode" = VNum 422)
  /\ (forall f u e,
        new (PoolFullError C nm) f u = Ok e ->
        obj_get e "statusCode" = VNum 422)
  /\ (forall u e,
        new (SubnetFullError C nm) u = Ok e ->
        obj_get e "statusCode" = VNum 507)
  /\ (forall e,
        new (SubnetsExhaustedError C nm) = Ok e ->
        obj_get e "statusCode" = VNum 507)
  /\ (forall c m e,
        new (InternalError nm) c m = Ok e ->
        obj_get e "statusCode" = VNum 500).
Proof.
  unfold new. repeat split.
  - intros m errs e. unfold InvalidParamsError.
    destruct (assert.string m "message") as [x|[]]; [discriminate|].
    destruct (assert.arrayOfObject errs "errors") as [x|[]]; [discriminate|].
    simpl. by intros [= <-].
  - intros m errs e. unfold InUseError.
    destruct (assert.string m "message") as [x|[]]; [discriminate|].
    destruct (assert.arrayOfObject errs "errors") as [x|[]]; [discriminate|].
    simpl. by intros [= <-].
  - intros f u e. unfold PoolFullError.
    destruct (assert.string f "field") as [x|[]] eqn:H1; [discriminate|].
    destruct (assert.uuid u "network_uuid") as [x|[]]; [discriminate|].
    simpl. unfold invalidParam. rewrite H1. simpl. by intros [= <-].
  - intros u e. unfold SubnetFullError.
    destruct (assert.uuid u "network_uuid") as [x|[]]; [discriminate|].
    simpl. by intros [= <-].
  - intros e. unfold SubnetsExhaustedError. by intros [= <-].
  - intros c m e. unfold InternalError.
    destruct c; try discriminate;
      (destruct (assert.optionalString m "message") as [x|[]];
       [discriminate|]);
      simpl; try discriminate.
    by intros [= <-].
Qed.

(** C5: for a UUID [u], [new SubnetFullError(u)] has code [SubnetFull],
    carries [u] as [network_uuid] on the error and in its body, and has
    [stop] set. *)
Theorem SubnetFullError_carries_network (u : string) :
  assert.is_uuid u = true ->
  exists e,
    new (SubnetFullError C nm) (VStr u) = Ok e
    /\ obj_get e "restCode" = VStr "SubnetFull"
    /\ prop (obj_get e "body") "code" = VStr "SubnetFull"
    /\ obj_get e "network_uuid" = VStr u
    /\ prop (obj_get e "body") "network_uuid" = VStr u
    /\ obj_get e "stop" = VBool true.
Proof.
  intros Hu. unfold new, SubnetFullError, assert.uuid. rewrite Hu. simpl.
  eexists. split; [reflexivity|]. repeat split.
Qed.

(** C8 (as amended): for a cause [c] that is an instance of [Error],
    [new InternalError(c, m)] keeps [c] as its cause; its body code is
    [InternalError] and, with [m] omitted, its message is "Internal error";
    without a cause object the constructor throws, and so it does with a
    cause object that is not an instance of [Error]. *)
Theorem InternalError_keeps_cause :
  (forall cm cps m,
     assert.is_nullish m || assert.is_string m = true ->
     exists e,
       new (InternalError nm) (VError cm cps) m = Ok e
       /\ obj_get e "cause" = VError cm cps
       /\ prop (obj_get e "body") "code" = VStr "InternalError"
       /\ (m = VUndefined ->
           obj_get e "message" = VStr "Internal error"
           /\ prop (obj_get e "body") "message" = VStr "Internal error"))
  /\ (forall c m,
        assert.is_object c = false ->
        new (InternalError nm) c m = Throw (AssertionError "cause"))
  /\ (forall c m,
        assert.is_object c = true ->
        isError c = false ->
        assert.is_nullish m || assert.is_string m = true ->
        new (InternalError nm) c m
        = Throw (AssertionError "cause is not an Error")).
Proof.
  split; [|split].
  - intros cm cps m Hm.
    unfold new, InternalError, assert.object, assert.optionalString.
    rewrite Hm. simpl. eexists. split; [reflexivity|].
    split; [reflexivity|]. split; [reflexivity|]. by intros ->.
  - intros c m Hc. unfold new, InternalError, assert.object. by rewrite Hc.
  - intros c m Hc He Hm.
    unfold new, InternalError, assert.object, assert.optionalString.
    rewrite Hc, Hm. by destruct c.
Qed.


End ErrorFacts.

Lemma status_codes_witness :
  (exists e,
     new (InvalidParamsError sample_codeToErrorName)
       (VStr "Invalid parameters") (VArr []) = Ok e
     /\ obj_get e "statusCode" = VNum 422)
  /\ (exists e,
        new (InUseError sample_codeToErrorName)
          (VStr "Network is in use") (VArr []) = Ok e
        /\ obj_get e "statusCode" = VNum 422)
  /\ (exists e,
        new (PoolFullError sample_constants sample_codeToErrorName)
          (VStr "network_uuid")
          (VStr "930896af-bf8c-48d4-885c-6573a94b1853") = Ok e
        /\ obj_get e "statusCode" = VNum 422)
  /\ (exists e,
        new (SubnetFullError sample_constants sample_codeToErrorName)
          (VStr "3c7f5393-7c69-4c7c-bc81-cb7aca031ff1") = Ok e
        /\ obj_get e "statusCode" = VNum 507)
  /\ (exists e,
        new (SubnetsExhaustedError sample_constants sample_codeToErrorName)
        = Ok e
        /\ obj_get e "statusCode" = VNum 507)
  /\ (exists e,
        new (InternalError sample_codeToErrorName)
          (VError "store unavailable" []) VUndefined = Ok e
        /\ obj_get e "statusCode" = VNum 500).
Proof.
  destruct (status_codes sample_constants sample_codeToErrorName)
    as (H1 & H2 & H3 & H4 & H5 & H6).
  split; [|split; [|split; [|split; [|split]]]];
    (eexists; split; [reflexivity|]).
  - apply (H1 (VStr "Invalid parameters") (VArr [])). reflexivity.
  - apply (H2 (VStr "Network is in use") (VArr [])). reflexivity.
  - apply (H3 (VStr "network_uuid")
             (VStr "930896af-bf8c-48d4-885c-6573a94b1853")).
    reflexivity.
  - apply (H4 (VStr "3c7f5393-7c69-4c7c-bc81-cb7aca031ff1")). reflexivity.
  - apply H5. reflexivity.
  - apply (H6 (VError "store unavailable" []) VUndefined).
    reflexivity.
Defined.

Lemma SubnetFullError_carries_network_witness :
  assert.is_uuid "3c7f5393-7c69-4c7c-bc81-cb7aca031ff1" = true
  /\ exists e,
       new (SubnetFullError sample_constants sample_codeToErrorName)
         (VStr "3c7f5393-7c69-4c7c-bc81-cb7aca031ff1") = Ok e
       /\ obj_get e "restCode" = VStr "SubnetFull"
       /\ prop (obj_get e "body") "code" = VStr "SubnetFull"
       /\ obj_get e "network_uuid"
          = VStr "3c7f5393-7c69-4c7c-bc81-cb7aca031ff1"
       /\ prop (obj_get e "body") "network_uuid"
          = VStr "3c7f5393-7c69-4c7c-bc81-cb7aca031ff1"
       /\ obj_get e "stop" = VBool true.
Proof.
  split; [reflexivity|].
  apply SubnetFullError_carries_network. reflexivity.
Defined.

(** A plain object is not kept as the cause: the constructor throws on it. *)
Lemma InternalError_plain_object_cause :
  ~ (forall c m,
       assert.is_object c = true ->
       assert.is_nullish m || assert.is_string m = true ->
       exists e,
         new (InternalError sample_codeToErrorName) c m = Ok e
         /\ obj_get e "cause" = c).
Proof.
  intros H.
  destruct (H (VObj [("message", VStr "store unavailable")]) VUndefined
              eq_refl eq_refl) as (e & He & _).
  discriminate He.
Qed.

Lemma InternalError_keeps_cause_witness :
  let c := VError "store unavailable" [("code", VStr "ECONNREFUSED")] in
  let o := VObj [("message", VStr "store unavailable")] in
  (assert.is_nullish VUndefined || assert.is_string VUndefined = true
   /\ exists e,
        new (InternalError sample_codeToErrorName) c VUndefined = Ok e
        /\ obj_get e "cause" = c
        /\ prop (obj_get e "body") "code" = VStr "InternalError"
        /\ (VUndefined = VUndefined ->
            obj_get e "message" = VStr "Internal error"
            /\ prop (obj_get e "body") "message" = VStr "Internal error"))
  /\ (assert.is_object VUndefined = false
      /\ new (InternalError sample_codeToErrorName) VUndefined VUndefined
         = Throw (AssertionError "cause"))
  /\ (assert.is_object o = true
      /\ isError o = false
      /\ new (InternalError sample_codeToErrorName) o VUndefined
         = Throw (AssertionError "cause is not an Error")).
Proof.
  intros c o.
  destruct (InternalError_keeps_cause sample_codeToErrorName)
    as (H1 & H2 & H3).
  split; [|split].
  - split; [reflexivity|]. apply H1; reflexivity.
  - split; [reflexivity|]. apply H2. reflexivity.
  - split; [reflexivity|]. split; [reflexivity|]. apply H3; reflexivity.
Defined.


Example unknownParams_sample :
  unknownParams sample_constants (VArr [VStr "foo"; VStr "bar"])
    VUndefined VUndefined
  = Ok (VObj [("field", VArr [VStr "foo"; VStr "bar"]);
              ("code", VStr "UnknownParameters");
              ("message", VStr "Unknown parameters: foo, bar")]).
Proof. reflexivity. Qed.

(** ** Sorting *)

Section sort.
Variable cmp : value -> value -> Z.

Lemma sort_insert_perm x l : sort_insert cmp x l ≡ₚ x :: l.
Proof.
  induction l as [|y l IH]; simpl; [done|].
  destruct (cmp x y <=? 0); [done|].
  rewrite IH. apply Permutation_swap.
Qed.

Lemma Array_sort_perm l : Array_sort cmp l ≡ₚ l.
Proof.
  induction l as [|x l IH]; simpl; [done|].
  by rewrite sort_insert_perm, IH.
Qed.

Lemma Array_sort_Forall (P : value -> Prop) l :
  Forall P l -> Forall P (Array_sort cmp l).
Proof. intros H. by rewrite Array_sort_perm. Qed.

Section order.
Variable P : value -> Prop.
Variable R : value -> value -> Prop.
Hypothesis cmp_le : forall a b, P a -> P b -> (cmp a b <=? 0) = true -> R a b.
Hypothesis cmp_gt : forall a b, P a -> P b -> (cmp a b <=? 0) = false -> R b a.

Lemma sort_insert_sorted x l :
  P x -> Forall P l -> Sorted R l -> Sorted R (sort_insert cmp x l).
Proof.
  intros Hx Hl Hs. induction l as [|y l IH]; simpl.
  - repeat constructor.
  - apply Forall_cons in Hl as [Hy Hl].
    destruct (cmp x y <=? 0) eqn:E.
    + constructor; [done|]. constructor. by apply cmp_le.
    + apply Sorted_inv in Hs as [Hs Hhd].
      constructor; [by apply IH|].
      destruct l as [|z l]; simpl.
      * constructor. by apply cmp_gt.
      * destruct (cmp x z <=? 0); constructor.
        -- by apply cmp_gt.
        -- by apply HdRel_inv in Hhd.
Qed.

Lemma Array_sort_sorted l : Forall P l -> Sorted R (Array_sort cmp l).
Proof.
  induction l as [|x l IH]; simpl; intros H; [constructor|].
  apply Forall_cons in H as [Hx Hl].
  apply sort_insert_sorted; auto using Array_sort_Forall.
Qed.
End order.

Section stable.
Variable P : value -> Prop.
Variable q : value -> Prop.
Context `{!forall e, Decision (q e)}.
Hypothesis cmp_same :
  forall a b, P a -> P b -> q a -> q b -> (cmp a b <=? 0) = true.

Lemma sort_insert_filter x l :
  P x -> Forall P l -> filter q (sort_insert cmp x l) = filter q (x :: l).
Proof.
  intros Hx Hl. induction l as [|y l IH]; simpl; [done|].
  apply Forall_cons in Hl as [Hy Hl].
  destruct (cmp x y <=? 0) eqn:E; [done|].
  rewrite filter_cons, IH by done. rewrite !filter_cons.
  destruct (decide (q x)) as [Hqx|], (decide (q y)) as [Hqy|]; try done.
  rewrite cmp_same in E by done. discriminate.
Qed.

Lemma Array_sort_filter l :
  Forall P l -> filter q (Array_sort cmp l) = filter q l.
Proof.
  induction l as [|x l IH]; simpl; intros Hall; [done|].
  apply Forall_cons in Hall as [Hx Hl].
  rewrite sort_insert_filter by auto using Array_sort_Forall.
  rewrite !filter_cons, IH by done. done.
Qed.
End stable.

Lemma Array_sort_all_equal (P : value -> Prop) l :
  (forall a b, P a -> P b -> (cmp a b <=? 0) = true) ->
  Forall P l -> Array_sort cmp l = l.
Proof.
  intros Heq. induction l as [|x l IH]; simpl; intros H; [done|].
  apply Forall_cons in H as [Hx Hl]. rewrite IH by done.
  destruct l as [|y l]; simpl; [done|].
  apply Forall_cons in Hl as [Hy Hl]. by rewrite Heq.
Qed.
End sort.

Lemma cmp_string_le (x y : string) :
  ((if String.ltb x y then -1 else if String.ltb y x then 1 else 0) <=? 0)
  = String.leb x y.
Proof.
  unfold String.ltb, String.leb. rewrite (String.compare_antisym x y).
  by destruct (String.compare y x).
Qed.

Lemma string_leb_total (x y : string) : String.leb x y = false -> String.le y x.
Proof.
  intros H. destruct (String.leb_total x y) as [H'|H']; [congruence|].
  unfold String.le. by rewrite H'.
Qed.

Lemma byField_le a b :
  assert.is_string (prop a "field") = true ->
  assert.is_string (prop b "field") = true ->
  (byField a b <=? 0)
  = String.leb (str_of (prop a "field")) (str_of (prop b "field")).
Proof.
  unfold byField, js_gt.
  destruct (prop a "field"); try discriminate.
  destruct (prop b "field"); try discriminate.
  intros _ _. simpl. apply cmp_string_le.
Qed.

Lemma sortById_le a b :
  assert.is_string (prop a "id") = true ->
  assert.is_string (prop b "id") = true ->
  (sortById a b <=? 0)
  = String.leb (str_of (prop a "id")) (str_of (prop b "id")).
Proof.
  unfold sortById, js_gt.
  destruct (prop a "id"); try discriminate.
  destruct (prop b "id"); try discriminate.
  intros _ _. simpl. apply cmp_string_le.
Qed.

Lemma sortById_no_id a b :
  prop a "id" = VUndefined -> prop b "id" = VUndefined ->
  (sortById a b <=? 0) = true.
Proof. unfold sortById, js_gt. by intros -> ->. Qed.

Lemma le_by_sorted_cons k a l :
  Sorted (le_by k) (a :: l) -> Forall (le_by k a) l.
Proof.
  intros Hs. apply Sorted_StronglySorted in Hs.
  - by apply StronglySorted_inv in Hs as [_ ?].
  - intros x y z. unfold le_by. apply transitivity.
Qed.

Lemma with_key_nil k l : (forall s, with_key k s l = []) -> l = [].
Proof.
  destruct l as [|b l]; [done|]. intros H.
  specialize (H (str_of (prop b k))). unfold with_key in H.
  rewrite filter_cons_True in H by done. discriminate.
Qed.

Lemma with_key_elem k s e l : e ∈ with_key k s l -> e ∈ l.
Proof. unfold with_key. rewrite list_elem_of_filter. tauto. Qed.

Lemma sorted_stable_unique k l1 : forall l2,
  Sorted (le_by k) l1 -> Sorted (le_by k) l2 ->
  (forall s, with_key k s l1 = with_key k s l2) ->
  l1 = l2.
Proof.
  induction l1 as [|a l1 IH]; intros l2 H1 H2 Hk.
  - symmetry. apply (with_key_nil k). intros s. by rewrite <- Hk.
  - destruct l2 as [|b l2].
    { apply (with_key_nil k). intros s. by rewrite Hk. }
    pose proof (le_by_sorted_cons _ _ _ H1) as Ha.
    pose proof (le_by_sorted_cons _ _ _ H2) as Hb.
    assert (Hab : str_of (prop a k) = str_of (prop b k)).
    { apply (anti_symm String.le).
      - assert (Hin : b ∈ a :: l1).
        { apply (with_key_elem k (str_of (prop b k))). rewrite Hk.
          unfold with_key. rewrite filter_cons_True by done. left. }
        apply elem_of_cons in Hin as [->|Hin]; [done|].
        rewrite Forall_forall in Ha. by apply Ha.
      - assert (Hin : a ∈ b :: l2).
        { apply (with_key_elem k (str_of (prop a k))). rewrite <- Hk.
          unfold with_key. rewrite filter_cons_True by done. left. }
        apply elem_of_cons in Hin as [->|Hin]; [done|].
        rewrite Forall_forall in Hb. by apply Hb. }
    assert (a = b) as ->.
    { specialize (Hk (str_of (prop a k))). unfold with_key in Hk.
      rewrite filter_cons_True in Hk by done.
      rewrite filter_cons_True in Hk by done. congruence. }
    f_equal. apply IH.
    + by apply Sorted_inv in H1 as [? _].
    + by apply Sorted_inv in H2 as [? _].
    + intros s. specialize (Hk s). unfold with_key in *.
      rewrite !filter_cons in Hk. destruct (decide _); congruence.
Qed.

(** ** Elements of a response's errors array *)

(** C7: for an array of objects whose [field] is a string,
    [sortErrsByField] leaves the array a permutation of what it was, in
    nondecreasing order of [field]; the order is fixed by the input: it
    keeps the input's order among elements of equal [field], and it is the
    only such arrangement. *)
Theorem sortErrsByField_sorted (errs : list value) :
  Forall (fun e => assert.is_string (prop e "field") = true) errs ->
  exists out,
    sortErrsByField (VArr errs) = Ok (VArr out)
    /\ out ≡ₚ errs
    /\ Sorted (le_by "field") out
    /\ (forall s, with_key "field" s out = with_key "field" s errs)
    /\ (forall out',
          Sorted (le_by "field") out' ->
          (forall s, with_key "field" s out' = with_key "field" s errs) ->
          out' = out).
Proof.
  intros Hf. exists (Array_sort byField errs).
  assert (Hsorted : Sorted (le_by "field") (Array_sort byField errs)).
  { apply (Array_sort_sorted _
             (fun e => assert.is_string (prop e "field") = true)); [| |done].
    - intros a b Ha Hb. rewrite byField_le by done.
      unfold le_by, String.le. by intros ->.
    - intros a b Ha Hb. rewrite byField_le by done. apply string_leb_total. }
  assert (Hstable : forall s,
             with_key "field" s (Array_sort byField errs)
             = with_key "field" s errs).
  { intros s. unfold with_key.
    apply (Array_sort_filter _
             (fun e => assert.is_string (prop e "field") = true)); [|done].
    intros a b Ha Hb Hqa Hqb. rewrite byField_le by done. rewrite Hqa, Hqb.
    apply Is_true_true. apply (reflexivity (R := String.le)). }
  split; [|split; [apply Array_sort_perm|split; [done|split; [done|]]]].
  - unfold sortErrsByField, assert.arrayOfObject.
    assert (forallb assert.is_object errs = true) as ->; [|done].
    apply forallb_forall. intros e He. rewrite Forall_forall in Hf.
    apply (has_string_is_object "field"). apply Hf. by apply list_elem_of_In.
  - intros out' Hs Hk. apply (sorted_stable_unique "field"); [done..|].
    intros s. by rewrite Hk, Hstable.
Qed.

Lemma sortErrsByField_sorted_witness :
  let errs :=
    [VObj [("field", VStr "vlan_id"); ("code", VStr "MissingParameter")];
     VObj [("field", VStr "name"); ("code", VStr "MissingParameter")];
     VObj [("field", VStr "nic_tag"); ("code", VStr "InvalidParameter")]] in
  Forall (fun e => assert.is_string (prop e "field") = true) errs
  /\ exists out,
       sortErrsByField (VArr errs) = Ok (VArr out)
       /\ out ≡ₚ errs
       /\ Sorted (le_by "field") out
       /\ (forall s, with_key "field" s out = with_key "field" s errs)
       /\ (forall out',
             Sorted (le_by "field") out' ->
             (forall s, with_key "field" s out' = with_key "field" s errs) ->
             out' = out).
Proof.
  intros errs. split.
  - repeat constructor.
  - apply sortErrsByField_sorted. repeat constructor.
Defined.

Example sortErrsByField_sample :
  sortErrsByField
    (VArr [VObj [("field", VStr "vlan_id")]; VObj [("field", VStr "name")];
           VObj [("field", VStr "nic_tag")]])
  = Ok (VArr [VObj [("field", VStr "name")]; VObj [("field", VStr "nic_tag")];
              VObj [("field", VStr "vlan_id")]]).
Proof. reflexivity. Qed.

Lemma overlap_map (nets : list value) (us : list string) :
  Forall2 (fun net u => getprop net "uuid" = Ok (VStr u)) nets us ->
  Array_map
    (fun net =>
       uuid ← getprop net "uuid" ;
       usedByParam (VStr "subnet") (VStr "network") uuid
         (VStr "subnet overlaps with another network"))
    (VArr nets) = Ok (overlap_error <$> us).
Proof.
  unfold Array_map. induction 1 as [|net u nets us Hu _ IH]; [done|].
  cbn. rewrite Hu. cbn. cbn in IH. by rewrite IH.
Qed.

(** C2 (as amended): for networks whose [uuid] is a string,
    [networkOverlapParams] returns exactly one object per network, with
    code [UsedBy], type [network], field [subnet] and the network's UUID as
    [id], in ascending order of [id]. *)
Theorem networkOverlapParams_sorted_by_id
    (nets : list value) (us : list string) :
  Forall2 (fun net u => getprop net "uuid" = Ok (VStr u)) nets us ->
  exists errs,
    networkOverlapParams (VArr nets) = Ok (VArr errs)
    /\ errs ≡ₚ overlap_error <$> us
    /\ Sorted (le_by "id") errs.
Proof.
  intros H. exists (Array_sort sortById (overlap_error <$> us)).
  split; [|split; [apply Array_sort_perm|]].
  - unfold networkOverlapParams. by rewrite (overlap_map _ _ H).
  - apply (Array_sort_sorted _
             (fun e => assert.is_string (prop e "id") = true)).
    + intros a b Ha Hb. rewrite sortById_le by done.
      unfold le_by, String.le. by intros ->.
    + intros a b Ha Hb. rewrite sortById_le by done. apply string_leb_total.
    + apply Forall_fmap. by apply Forall_true.
Qed.

Lemma networkOverlapParams_sorted_by_id_witness :
  let nets :=
    [VObj [("uuid", VStr "930896af-bf8c-48d4-885c-6573a94b1853");
           ("subnet", VStr "10.0.0.0/24")];
     VObj [("uuid", VStr "3c7f5393-7c69-4c7c-bc81-cb7aca031ff1");
           ("subnet", VStr "10.0.0.128/25")]] in
  let us :=
    ["930896af-bf8c-48d4-885c-6573a94b1853";
     "3c7f5393-7c69-4c7c-bc81-cb7aca031ff1"] in
  Forall2 (fun net u => getprop net "uuid" = Ok (VStr u)) nets us
  /\ exists errs,
       networkOverlapParams (VArr nets) = Ok (VArr errs)
       /\ errs ≡ₚ overlap_error <$> us
       /\ Sorted (le_by "id") errs.
Proof.
  intros nets us. split.
  - repeat constructor.
  - apply networkOverlapParams_sorted_by_id. repeat constructor.
Defined.

(** The elements [networkOverlapParams] returns have code [UsedBy], not
    [InvalidParameter]. *)
Lemma networkOverlapParams_code_not_InvalidParameter :
  ~ (forall nets errs,
       networkOverlapParams (VArr nets) = Ok (VArr errs) ->
       Forall (fun e => prop e "code" = VStr "InvalidParameter") errs).
Proof.
  intros H.
  specialize (H [VObj [("uuid", VStr "3c7f5393-7c69-4c7c-bc81-cb7aca031ff1")]]
                [overlap_error "3c7f5393-7c69-4c7c-bc81-cb7aca031ff1"]
                eq_refl).
  apply Forall_cons in H as [H _]. discriminate H.
Qed.

Section MtuFacts.

Variable C : Constants.

Lemma mtu_map (nets : list obj) :
  Array_map
    (fun net =>
       uuid ← getprop net "uuid" ;
       invalidParam C (VStr "mtu")
         (VStr "nic_tag mtu must be greater than its networks")
         (VObj [("uuid", uuid)]))
    (VArr (VObj <$> nets))
  = Ok ((fun n => mtu_error (obj_get n "uuid")) <$> nets).
Proof.
  unfold Array_map. induction nets as [|n nets IH]; [done|].
  cbn. cbn in IH. by rewrite IH.
Qed.

(** One object per network, with field [mtu], code [InvalidParameter] and
    the network's [uuid]: in the order of the input, since the objects have
    no [id] for [sortById] to compare. *)
Lemma nictagMtuInvalidForNetworks_keeps_order (nets : list obj) :
  nictagMtuInvalidForNetworks C (VArr (VObj <$> nets))
  = Ok (VArr ((fun n => mtu_error (obj_get n "uuid")) <$> nets)).
Proof.
  unfold nictagMtuInvalidForNetworks. rewrite mtu_map. cbn. do 2 f_equal.
  apply (Array_sort_all_equal _ (fun e => prop e "id" = VUndefined)).
  - intros a b. apply sortById_no_id.
  - apply Forall_fmap. by apply Forall_true.
Qed.

(** C3: on two networks given with the greater UUID first,
    [nictagMtuInvalidForNetworks] returns their two errors in that order,
    which is not ascending by UUID. *)
Theorem nictagMtuInvalidForNetworks_not_sorted_by_uuid :
  let a := "3c7f5393-7c69-4c7c-bc81-cb7aca031ff1" in
  let b := "930896af-bf8c-48d4-885c-6573a94b1853" in
  nictagMtuInvalidForNetworks C
    (VArr [VObj [("uuid", VStr b); ("mtu", VNum 9000)];
           VObj [("uuid", VStr a); ("mtu", VNum 1500)]])
  = Ok (VArr [mtu_error (VStr b); mtu_error (VStr a)])
  /\ ~ Sorted (le_by "uuid") [mtu_error (VStr b); mtu_error (VStr a)].
Proof.
  intros a b. split; [reflexivity|].
  intros H. apply Sorted_inv in H as [_ H]. apply HdRel_inv in H.
  exact H.
Qed.

End MtuFacts.

(** ** The per-network tracker of the unit tests *)

Section HelpersFacts.
Context {IPAddr : Type}.
Variable toIPAddr : string -> option IPAddr.
Variable ipAddrPlus : IPAddr -> Z -> result IPAddr.
Variable toString : IPAddr -> string.

Local Abbreviation next_ip :=
  (nextProvisionableIP toIPAddr ipAddrPlus toString).

Lemma set_tracker_id (g : globals IPAddr) net curr :
  NET_IPS g !! uuid net = Some (Some curr) -> set_tracker g net curr = g.
Proof.
  intros H. destruct g as [n ips]. unfold set_tracker; simpl in *.
  f_equal. by apply insert_id.
Qed.

Lemma set_tracker_twice (g : globals IPAddr) net a b :
  set_tracker (set_tracker g net a) net b = set_tracker g net b.
Proof. unfold set_tracker; simpl. f_equal. apply insert_insert_eq. Qed.

Lemma tracker_set (g : globals IPAddr) net a :
  tracker toIPAddr (set_tracker g net a) net = Some a.
Proof. unfold tracker, set_tracker; simpl. by rewrite lookup_insert_eq. Qed.

Lemma next_ip_willFail net g curr :
  tracker toIPAddr g net = Some curr ->
  next_ip net (VBool true) g = (set_tracker g net curr, Ok (toString curr)).
Proof.
  unfold tracker. intros H.
  unfold nextProvisionableIP, mbind, helper_bind, lift, read_NET_IPS,
    write_NET_IPS, mret, helper_ret.
  simpl.
  destruct (NET_IPS g !! uuid net) as [a|] eqn:E.
  - subst a. simpl. rewrite E. simpl. by rewrite set_tracker_id.
  - destruct (provision_start_ip net) as [| | | |s| | |] eqn:Es; try discriminate.
    simpl. rewrite H. simpl. rewrite lookup_insert_eq. simpl. done.
Qed.

Lemma next_ip_advance net g curr nxt w :
  tracker toIPAddr g net = Some curr ->
  w = VUndefined \/ w = VBool false ->
  ipAddrPlus curr 1 = Ok nxt ->
  next_ip net w g = (set_tracker g net nxt, Ok (toString curr)).
Proof.
  unfold tracker, nextProvisionableIP. intros H Hw Hp.
  assert (assert.optionalBool w "willFail" = Ok tt /\ truthy w = false)
    as [Hw1 Hw2].
  { by destruct Hw as [-> | ->]. }
  unfold nextProvisionableIP, mbind, helper_bind, lift, read_NET_IPS,
    write_NET_IPS, mret, helper_ret.
  rewrite Hw1, Hw2. simpl.
  destruct (NET_IPS g !! uuid net) as [a|] eqn:E.
  - subst a. simpl. rewrite E. simpl. rewrite Hp. simpl. done.
  - destruct (provision_start_ip net) as [| | | |s| | |] eqn:Es; try discriminate.
    simpl. rewrite H. simpl. rewrite lookup_insert_eq. simpl. rewrite Hp. simpl.
    unfold set_tracker. f_equal. f_equal. simpl. apply insert_insert_eq.
Qed.

(** C10: with [willFail] set, [nextProvisionableIP] returns the network's
    current address and leaves the tracker on it, so the call that follows
    returns the same address; with [willFail] false or omitted it returns
    the current address and moves the tracker to [ipAddrPlus(curr, 1)].
    Nothing else in the globals changes. *)
Theorem nextProvisionableIP_willFail
    (net : network) (g : globals IPAddr) (curr : IPAddr) :
  tracker toIPAddr g net = Some curr ->
  let g1 := set_tracker g net curr in
  next_ip net (VBool true) g = (g1, Ok (toString curr))
  /\ tracker toIPAddr g1 net = Some curr
  /\ next_ip net (VBool true) g1 = (g1, Ok (toString curr))
  /\ (forall w nxt,
        w = VUndefined \/ w = VBool false ->
        ipAddrPlus curr 1 = Ok nxt ->
        next_ip net w g = (set_tracker g net nxt, Ok (toString curr))
        /\ next_ip net w g1 = (set_tracker g net nxt, Ok (toString curr))).
Proof.
  intros H g1. subst g1. pose proof (tracker_set g net curr) as H1.
  split; [by apply next_ip_willFail|]. split; [done|]. split.
  - rewrite (next_ip_willFail _ _ _ H1). by rewrite set_tracker_twice.
  - intros w nxt Hw Hp. split; [by apply next_ip_advance|].
    rewrite (next_ip_advance _ _ _ _ _ H1 Hw Hp). by rewrite set_tracker_twice.
Qed.
End HelpersFacts.

Example ip4_sample :
  ip4.toIPAddr "10.0.2.254" = Some 167772926
  /\ ip4.toString 167772673 = "10.0.2.1"
  /\ (n ← ip4.ipAddrPlus 167772926 1 ; Ok (ip4.toString n)) = Ok "10.0.2.255"
  /\ ip4.toIPAddr "10.0.2.256" = None.
Proof. repeat split. Qed.

Lemma nextProvisionableIP_willFail_witness :
  let next_ip :=
    nextProvisionableIP ip4.toIPAddr ip4.ipAddrPlus ip4.toString in
  let curr := 167772673 in
  let g1 := set_tracker sample_globals sample_net curr in
  tracker ip4.toIPAddr sample_globals sample_net = Some curr
  /\ next_ip sample_net (VBool true) sample_globals
     = (g1, Ok (ip4.toString curr))
  /\ tracker ip4.toIPAddr g1 sample_net = Some curr
  /\ next_ip sample_net (VBool true) g1 = (g1, Ok (ip4.toString curr))
  /\ (forall w nxt,
        w = VUndefined \/ w = VBool false ->
        ip4.ipAddrPlus curr 1 = Ok nxt ->
        next_ip sample_net w sample_globals
        = (set_tracker sample_globals sample_net nxt,
           Ok (ip4.toString curr))
        /\ next_ip sample_net w g1
           = (set_tracker sample_globals sample_net nxt,
              Ok (ip4.toString curr))).
Proof.
  intros next_ip curr g1. split; [reflexivity|].
  apply (nextProvisionableIP_willFail ip4.toIPAddr ip4.ipAddrPlus
           ip4.toString sample_net sample_globals curr).
  reflexivity.
Defined.

(** ** The allocation engine *)

Section EngineFacts.

Import Engine.

Lemma next_in_range net a : in_range net a -> in_range net (next net a).
Proof.
  unfold in_range, next. intros H.
  destruct (Z.eqb_spec a (provision_end_ip net)); lia.
Qed.

Lemma scan_in_range net ex fuel : forall cand st st' a,
  in_range net cand ->
  scan net ex fuel cand st = (st', Some a) ->
  in_range net a.
Proof.
  induction fuel as [|fuel IH]; intros cand st st' a Hc; simpl;
    [discriminate|].
  destruct (bool_decide (cand ∈ ex) || non_free st (uuid net, cand)).
  - apply IH. by apply next_in_range.
  - destruct (putIfAbsent st (uuid net, cand) provisioning) as [st1 []].
    + by intros [= _ <-].
    + apply IH. by apply next_in_range.
Qed.

Lemma allocate_in_range net req st st' a :
  provision_start_ip net <= provision_end_ip net ->
  allocate net req st = (st', inr a) ->
  in_range net a.
Proof.
  intros Hle. unfold allocate.
  destruct (scan _ _ _ _ _) as [st1 [b|]] eqn:E; [|discriminate].
  intros [= _ <-]. eapply scan_in_range; [|exact E].
  unfold in_range.
  pose proof (Z.mod_pos_bound (offset req)
                (provision_end_ip net - provision_start_ip net + 1)).
  lia.
Qed.

(** C9: for a valid network, no request of any sequence of allocation
    requests, from any state of the store, is answered with an address
    outside [provision_start_ip, provision_end_ip]. *)
Theorem allocate_never_outside_range (net : Network) :
  valid net ->
  forall (reqs : list request) (st : store) (a : Z),
    inr a ∈ allocate_all net reqs st ->
    provision_start_ip net <= a <= provision_end_ip net.
Proof.
  intros (Hle & _ & _) reqs.
  induction reqs as [|req reqs IH]; intros st a; simpl.
  - by intros ?%elem_of_nil.
  - destruct (allocate net req st) as [st' r] eqn:E.
    intros [Heq|Hin]%elem_of_cons.
    + subst r. by apply (allocate_in_range _ _ _ _ _ Hle E).
    + by apply (IH st').
Qed.

Section Pools.

Variable C : Constants.
Variable nm : value -> string.

Lemma try_members_full field pool req nets : forall tried st st' tried' r,
  try_members C nm field pool req nets tried st = (st', tried', inl r) ->
  r = pool_full C nm field pool /\ tried' = tried ++ (uuid <$> nets).
Proof.
  induction nets as [|net nets IH]; intros tried st st' tried' r; simpl.
  - intros [= _ <- <-]. by rewrite app_nil_r.
  - destruct (allocate net req st) as [st1 [u|a]]; [|discriminate].
    intros H. apply IH in H as [-> ->]. by rewrite <- app_assoc.
Qed.

(** C4: for a field name and a UUID [u], [new PoolFullError(field, u)]
    carries [u] as [pool_uuid] and has [stop] false; the allocation over
    a pool raises it with [stop] true only having tried every member of
    the pool. *)
Theorem PoolFullError_pool_uuid_stop (field u : string) :
  assert.is_uuid u = true ->
  exists e,
    new (PoolFullError C nm) (VStr field) (VStr u) = Ok e
    /\ obj_get e "pool_uuid" = VStr u
    /\ obj_get e "stop" = VBool false
    /\ (forall pool req st st' tried r,
          pool_uuid pool = u ->
          allocatePool C nm field pool req st = (st', tried, inl r) ->
          r = Ok (obj_set e "stop" (VBool true))
          /\ tried = uuid <$> networks pool).
Proof.
  intros Hu.
  assert (exists e,
            new (PoolFullError C nm) (VStr field) (VStr u) = Ok e
            /\ obj_get e "pool_uuid" = VStr u
            /\ obj_get e "stop" = VBool false) as (e & He & Hp & Hs).
  { unfold new, PoolFullError, assert.uuid. rewrite Hu. simpl.
    eexists. split; [reflexivity|]. split; reflexivity. }
  exists e. split; [done|]. split; [done|]. split; [done|].
  intros pool req st st' tried r Hpool H.
  apply try_members_full in H as [-> ->]. split; [|done].
  unfold pool_full. rewrite Hpool. unfold new in He. by rewrite He.
Qed.

End Pools.

End EngineFacts.

Example allocate_all_sample :
  Engine.allocate_all sample_network
    [sample_request 0; sample_request 0; sample_request 253] ∅
  = [inr 167772673; inr 167772674; inr 167772926].
Proof. vm_compute. reflexivity. Qed.

Example allocate_all_full :
  Engine.allocate_all
    (one_address_network "3c7f5393-7c69-4c7c-bc81-cb7aca031ff1" 167772673)
    [sample_request 0; sample_request 0] ∅
  = [inr 167772673; inl "3c7f5393-7c69-4c7c-bc81-cb7aca031ff1"].
Proof. vm_compute. reflexivity. Qed.

Lemma allocate_never_outside_range_witness :
  Engine.valid sample_network
  /\ inr 167772674
       ∈ Engine.allocate_all sample_network
           [sample_request 0; sample_request 0] ∅
  /\ Engine.provision_start_ip sample_network <= 167772674
     <= Engine.provision_end_ip sample_network.
Proof.
  assert (Hv : Engine.valid sample_network).
  { unfold Engine.valid. simpl. split; [lia|]. split; reflexivity. }
  assert (Hin : inr 167772674
                  ∈ Engine.allocate_all sample_network
                      [sample_request 0; sample_request 0] ∅).
  { vm_compute. right. left. }
  split; [exact Hv|]. split; [exact Hin|].
  exact (allocate_never_outside_range sample_network Hv _ _ _ Hin).
Defined.

(** The second member of the pool still has its address: no failure. *)
Example allocatePool_falls_back :
  snd (Engine.allocatePool sample_constants sample_codeToErrorName
         "network_uuid" sample_pool (sample_request 0)
         {[ ("3c7f5393-7c69-4c7c-bc81-cb7aca031ff1", 167772673)
              := Engine.used ]})
  = inr ("0e56fe34-39a3-42d5-86c7-d719487f892b", 167772929).
Proof. vm_compute. reflexivity. Qed.

(** Both members full: the pool's error, [stop] set, both members tried. *)
Example allocatePool_full :
  let '(_, tried, r) :=
    Engine.allocatePool sample_constants sample_codeToErrorName
      "network_uuid" sample_pool (sample_request 0)
      {[ ("3c7f5393-7c69-4c7c-bc81-cb7aca031ff1", 167772673) := Engine.used;
         ("0e56fe34-39a3-42d5-86c7-d719487f892b", 167772929) := Engine.used ]}
  in
  tried = ["3c7f5393-7c69-4c7c-bc81-cb7aca031ff1";
           "0e56fe34-39a3-42d5-86c7-d719487f892b"]
  /\ match r with
     | inl (inr e) =>
         obj_get e "stop" = VBool true
         /\ obj_get e "pool_uuid"
            = VStr "930896af-bf8c-48d4-885c-6573a94b1853"
     | _ => False
     end.
Proof. vm_compute. split; [reflexivity|]. split; reflexivity. Qed.

Lemma PoolFullError_pool_uuid_stop_witness :
  let u := "930896af-bf8c-48d4-885c-6573a94b1853" in
  let field := "network_uuid" in
  assert.is_uuid u = true
  /\ exists e,
       new (PoolFullError sample_constants sample_codeToErrorName)
         (VStr field) (VStr u) = Ok e
       /\ obj_get e "pool_uuid" = VStr u
       /\ obj_get e "stop" = VBool false
       /\ (forall pool req st st' tried r,
             Engine.pool_uuid pool = u ->
             Engine.allocatePool sample_constants sample_codeToErrorName
               field pool req st = (st', tried, inl r) ->
             r = Ok (obj_set e "stop" (VBool true))
             /\ tried = Engine.uuid <$> Engine.networks pool).
Proof.
  intros u field. split; [reflexivity|].
  apply PoolFullError_pool_uuid_stop. reflexivity.
Defined.

(** * Further properties of the error helpers and the test helpers *)

(** ** Copying properties *)

Lemma obj_has_false_notin (ps : obj) k : obj_has ps k = false -> k ∉ ps.*1.
Proof.
  induction ps as [|[k' v'] ps IH]; simpl; [intros _; apply not_elem_of_nil|].
  intros [Hk Hps]%orb_false_iff. apply not_elem_of_cons. split; [|auto].
  intros ->. by rewrite String.eqb_refl in Hk.
Qed.

Lemma obj_has_notin (ps : obj) k : k ∉ ps.*1 -> obj_has ps k = false.
Proof.
  induction ps as [|[k' v'] ps IH]; simpl; [done|].
  intros [Hk Hps]%not_elem_of_cons. apply orb_false_iff. split; [|auto].
  apply String.eqb_neq. congruence.
Qed.

Lemma foldl_set_notin (ps : obj) : forall (param : obj) k,
  obj_has ps k = false ->
  obj_get (foldl (fun p kv => obj_set p (fst kv) (snd kv)) param ps) k
  = obj_get param k.
Proof.
  induction ps as [|[k' v'] ps IH]; intros param k H; simpl in *; [done|].
  apply orb_false_iff in H as [Hk Hps].
  rewrite IH by done. apply obj_get_set_ne.
  intros ->. by rewrite String.eqb_refl in Hk.
Qed.

Lemma foldl_set_in (ps : obj) : forall (param : obj) k,
  NoDup ps.*1 ->
  obj_has ps k = true ->
  obj_get (foldl (fun p kv => obj_set p (fst kv) (snd kv)) param ps) k
  = obj_get ps k.
Proof.
  induction ps as [|[k' v'] ps IH]; intros param k Hnd H; simpl in *; [done|].
  apply NoDup_cons in Hnd as [Hk' Hnd].
  destruct (String.eqb k' k) eqn:E.
  - apply String.eqb_eq in E as ->.
    rewrite foldl_set_notin by by apply obj_has_notin.
    apply obj_get_set_eq.
  - simpl in H. by apply IH.
Qed.

Lemma copy_props_lookup (from : value) (to : obj) (k : string) :
  distinct_keys from ->
  obj_get (copy_props from to) k
  = if obj_has (enum_props from) k then obj_get (enum_props from) k
    else obj_get to k.
Proof.
  intros Hnd. unfold copy_props.
  destruct (obj_has (enum_props from) k) eqn:E.
  - by apply foldl_set_in.
  - by apply foldl_set_notin.
Qed.

Lemma copy_props_has (ps : obj) : forall (to : obj) k,
  obj_has (foldl (fun p kv => obj_set p (fst kv) (snd kv)) to ps) k
  = obj_has ps k || obj_has to k.
Proof.
  assert (Hset : forall (o : obj) k' v k,
            obj_has (obj_set o k' v) k = String.eqb k' k || obj_has o k).
  { induction o as [|[k0 v0] o IHo]; intros k' v k; simpl.
    - by rewrite orb_false_r.
    - destruct (String.eqb k0 k') eqn:E; simpl.
      + apply String.eqb_eq in E as ->. by destruct (String.eqb k' k).
      + rewrite IHo. destruct (String.eqb k0 k), (String.eqb k' k); done. }
  induction ps as [|[k' v'] ps IH]; intros to k; simpl; [done|].
  rewrite IH, Hset. destruct (String.eqb k' k), (obj_has ps k); done.
Qed.

(** X1: after [copyParams(from, to)], a property [from] has is on [to] with
    [from]'s value and every other property of [to] is as it was; [to] has
    exactly the properties of either. *)
Theorem copyParams_lookup (from : value) (to : obj) :
  distinct_keys from ->
  forall k,
    obj_get (helpers.copyParams from to) k
    = (if obj_has (enum_props from) k then obj_get (enum_props from) k
       else obj_get to k)
    /\ obj_has (helpers.copyParams from to) k
       = obj_has (enum_props from) k || obj_has to k.
Proof.
  intros Hnd k. split.
  - by apply copy_props_lookup.
  - apply copy_props_has.
Qed.

Lemma copyParams_lookup_witness :
  let from := VObj [("vlan_id", VNum 46); ("mtu", VNum 9000)] in
  let to := [("name", VStr "net0"); ("mtu", VNum 1500)] in
  distinct_keys from
  /\ forall k,
       obj_get (helpers.copyParams from to) k
       = (if obj_has (enum_props from) k then obj_get (enum_props from) k
          else obj_get to k)
       /\ obj_has (helpers.copyParams from to) k
          = obj_has (enum_props from) k || obj_has to k.
Proof.
  intros from to.
  assert (Hd : distinct_keys from).
  { unfold distinct_keys. cbn. apply NoDup_ListNoDup.
    repeat (constructor; [simpl; intuition discriminate|]). constructor. }
  split; [exact Hd|]. exact (copyParams_lookup from to Hd).
Defined.

Example copyParams_sample :
  helpers.copyParams (VObj [("vlan_id", VNum 46); ("mtu", VNum 9000)])
    [("name", VStr "net0"); ("mtu", VNum 1500)]
  = [("name", VStr "net0"); ("mtu", VNum 9000); ("vlan_id", VNum 46)].
Proof. reflexivity. Qed.

(** X19: [validIPparams(override)] has the three default properties except
    where [override] has a property of its own, which wins; [validNicparams]
    builds the same object. *)
Theorem validIPparams_override (override : value) :
  distinct_keys override ->
  helpers.validNicparams override = helpers.validIPparams override
  /\ forall k,
       prop (helpers.validIPparams override) k
       = if obj_has (enum_props override) k
         then obj_get (enum_props override) k
         else obj_get
                [("belongs_to_type", VStr "zone");
                 ("belongs_to_uuid",
                  VStr "3c7f5393-7c69-4c7c-bc81-cb7aca031ff1");
                 ("owner_uuid",
                  VStr "930896af-bf8c-48d4-885c-6573a94b1853")] k.
Proof.
  intros Hnd. split; [reflexivity|]. intros k.
  unfold helpers.validIPparams. cbn [prop].
  by apply copy_props_lookup.
Qed.

Lemma validIPparams_override_witness :
  let override := VObj [("belongs_to_type", VStr "server")] in
  distinct_keys override
  /\ prop (helpers.validIPparams override) "belongs_to_type" = VStr "server"
  /\ prop (helpers.validIPparams override) "owner_uuid"
     = VStr "930896af-bf8c-48d4-885c-6573a94b1853".
Proof.
  intros override.
  assert (Hd : distinct_keys override).
  { unfold distinct_keys. cbn. apply NoDup_ListNoDup.
    repeat (constructor; [simpl; intuition discriminate|]). constructor. }
  split; [exact Hd|].
  split; apply (proj2 (validIPparams_override override Hd)).
Defined.

(** ** Elements of a response's errors array, continued *)

Section ParamFacts.

Variable C : Constants.
Variable nm : value -> string.

(** X2: with a string [field], [invalidParam] returns an object on which
    every property of [extra] has [extra]'s value (so [extra] can replace
    [field], [code] and [message]) and the others are the field, the code
    [InvalidParameter] and the message, or the default message when the
    message is falsy; with any other [field] it throws. *)
Theorem invalidParam_extra (field message extra : value) :
  distinct_keys extra ->
  (assert.is_string field = true ->
   exists e,
     invalidParam C field message extra = Ok (VObj e)
     /\ forall k,
          obj_get e k
          = if obj_has (enum_props extra) k then obj_get (enum_props extra) k
            else obj_get
                   [("field", field); ("code", VStr "InvalidParameter");
                    ("message",
                     js_or message (VStr (msg_INVALID_PARAMS C)))] k)
  /\ (assert.is_string field = false ->
      invalidParam C field message extra = Throw (AssertionError "field")).
Proof.
  intros Hnd. unfold invalidParam, assert.string. split; intros ->; simpl; [|done].
  eexists. split; [reflexivity|]. intros k.
  destruct (truthy extra) eqn:Ht.
  - by apply copy_props_lookup.
  - assert (enum_props extra = []) as ->; [|done].
    destruct extra as [| | | |s| | |]; try done.
    simpl in Ht. destruct s; [done|discriminate].
Qed.

(** X3: with strings [type] and [id] and no message, [usedBy] returns an
    object with that type and id, code [UsedBy], and the message
    [In use by <type> "<id>"]. *)
Theorem usedBy_default_message (type id : string) (message : value) :
  truthy message = false ->
  exists o,
    usedBy (VStr type) (VStr id) message = Ok o
    /\ obj_get o "type" = VStr type
    /\ obj_get o "id" = VStr id
    /\ obj_get o "code" = VStr "UsedBy"
    /\ obj_get o "message"
       = VStr ("In use by " +:+ type +:+ " " +:+ String "034" id
               +:+ String "034" EmptyString).
Proof.
  intros Hm. unfold usedBy. simpl. eexists. split; [reflexivity|].
  unfold js_or. rewrite Hm. repeat split.
Qed.

(** X4: [usedByParam] returns exactly when field, type and id are all
    strings, and then returns the object of [usedBy] with the field added;
    otherwise it throws. *)
Theorem usedByParam_strings (field type id message : value) :
  (assert.is_string field && assert.is_string type && assert.is_string id
   = true ->
   exists o,
     usedBy type id message = Ok o
     /\ usedByParam field type id message = Ok (VObj (obj_set o "field" field))
     /\ obj_get (obj_set o "field" field) "field" = field
     /\ obj_get (obj_set o "field" field) "id" = id
     /\ obj_get (obj_set o "field" field) "type" = type
     /\ obj_get (obj_set o "field" field) "code" = VStr "UsedBy")
  /\ (assert.is_string field && assert.is_string type && assert.is_string id
      = false ->
      exists e, usedByParam field type id message = Throw e).
Proof.
  unfold usedByParam, usedBy, assert.string. split.
  - intros [[-> ->]%andb_true_iff ->]%andb_true_iff. simpl.
    eexists. split; [reflexivity|]. repeat split.
  - destruct (assert.is_string field); simpl; [|eauto].
    destruct (assert.is_string type); simpl; [|eauto].
    destruct (assert.is_string id); simpl; [discriminate|eauto].
Qed.
(** X10: on the wire a [PoolFullError] is an [InvalidParameters] error: its
    name is [InvalidParamsError], its REST and body code [InvalidParameters],
    and its body lists one [InvalidParameter] element, for the field given,
    whose message is the pool message formatted with the pool's UUID. *)
Theorem PoolFullError_wire_shape (field u : string) :
  assert.is_uuid u = true ->
  exists e,
    new (PoolFullError C nm) (VStr field) (VStr u) = Ok e
    /\ obj_get e "name" = VStr "InvalidParamsError"
    /\ obj_get e "restCode" = VStr "InvalidParameters"
    /\ prop (obj_get e "body") "code" = VStr "InvalidParameters"
    /\ prop (obj_get e "body") "errors"
       = VArr [VObj [("field", VStr field);
                     ("code", VStr "InvalidParameter");
                     ("message",
                      js_or (VStr (util_format (fmt_POOL_FULL_MSG C) [u]))
                            (VStr (msg_INVALID_PARAMS C)))]].
Proof.
  intros Hu. unfold new, PoolFullError, assert.uuid. rewrite Hu. simpl.
  eexists. split; [reflexivity|]. repeat split.
Qed.

(** X11: [new InvalidParamsError(message, errors)] returns exactly when
    [message] is a string and [errors] an array of objects; the error then
    has that message, REST code [InvalidParameters], and a body of the code,
    the message and the array as given.  Otherwise it throws. *)
Theorem InvalidParamsError_returns_iff (message errors : value) :
  let ok :=
    assert.is_string message
    && match errors with
       | VArr l => forallb assert.is_object l
       | _ => false
       end in
  (ok = true ->
   exists e,
     new (InvalidParamsError nm) message errors = Ok e
     /\ obj_get e "message" = message
     /\ obj_get e "restCode" = VStr "InvalidParameters"
     /\ obj_get e "body"
        = VObj [("code", VStr "InvalidParameters");
                ("message", message);
                ("errors", errors)])
  /\ (ok = false ->
      exists x, new (InvalidParamsError nm) message errors = Throw x).
Proof.
  intros ok. subst ok.
  unfold new, InvalidParamsError, assert.string, assert.arrayOfObject. split.
  - intros [Hm He]%andb_true_iff. rewrite Hm, He. simpl.
    eexists. split; [reflexivity|].
    destruct message as [| | | |s| | |]; try discriminate.
    split; [|by split]. simpl. unfold js_or. simpl.
    by destruct s.
  - intros H. destruct (assert.is_string message); simpl in *; [|by eexists].
    rewrite H. simpl. by eexists.
Qed.

(** X12: [new InternalError(c, s)] with a cause that is an instance of
    [Error] and a string message uses the message for the error and for the
    body, except that the empty string counts as no message and gives
    "Internal error". *)
Theorem InternalError_message (cm : string) (cps : obj) (s : string) :
  exists e,
    new (InternalError nm) (VError cm cps) (VStr s) = Ok e
    /\ obj_get e "message"
       = VStr (if String.eqb s EmptyString then "Internal error" else s)
    /\ prop (obj_get e "body") "message" = obj_get e "message".
Proof.
  unfold new, InternalError. simpl.
  eexists. split; [reflexivity|].
  destruct s; simpl; by split.
Qed.

End ParamFacts.

Lemma invalidParam_extra_witness :
  let extra := VObj [("uuid", VStr "3c7f5393-7c69-4c7c-bc81-cb7aca031ff1");
                     ("code", VStr "Overridden")] in
  distinct_keys extra
  /\ assert.is_string (VStr "mtu") = true
  /\ exists e,
       invalidParam sample_constants (VStr "mtu") VUndefined extra
       = Ok (VObj e)
       /\ obj_get e "code" = VStr "Overridden"
       /\ obj_get e "uuid" = VStr "3c7f5393-7c69-4c7c-bc81-cb7aca031ff1"
       /\ obj_get e "message" = VStr "Invalid parameters".
Proof.
  intros extra.
  assert (Hd : distinct_keys extra).
  { unfold distinct_keys. cbn. apply NoDup_ListNoDup.
    repeat (constructor; [simpl; intuition discriminate|]). constructor. }
  split; [exact Hd|]. split; [reflexivity|].
  destruct (proj1 (invalidParam_extra sample_constants (VStr "mtu")
                     VUndefined extra Hd) eq_refl) as (e & He & Hk).
  exists e. split; [exact He|].
  split; [apply Hk|]. split; apply Hk.
Defined.

Lemma usedBy_default_message_witness :
  truthy VUndefined = false
  /\ exists o,
       usedBy (VStr "network") (VStr "3c7f5393") VUndefined = Ok o
       /\ obj_get o "type" = VStr "network"
       /\ obj_get o "id" = VStr "3c7f5393"
       /\ obj_get o "code" = VStr "UsedBy"
       /\ obj_get o "message"
          = VStr ("In use by " +:+ "network" +:+ " " +:+ String "034" "3c7f5393"
                  +:+ String "034" EmptyString).
Proof.
  split; [reflexivity|]. apply usedBy_default_message. reflexivity.
Defined.

Lemma usedByParam_strings_witness :
  (exists o,
     usedByParam (VStr "subnet") (VStr "network") (VStr "3c7f5393") VUndefined
     = Ok (VObj o)
     /\ obj_get o "field" = VStr "subnet")
  /\ exists e,
       usedByParam (VStr "subnet") (VStr "network") (VNum 5) VUndefined
       = Throw e.
Proof.
  split.
  - destruct (proj1 (usedByParam_strings (VStr "subnet") (VStr "network")
                       (VStr "3c7f5393") VUndefined) eq_refl)
      as (o & _ & H & Hf & _).
    eexists. split; [exact H|exact Hf].
  - exact (proj2 (usedByParam_strings (VStr "subnet") (VStr "network")
                    (VNum 5) VUndefined) eq_refl).
Defined.

Lemma PoolFullError_wire_shape_witness :
  let u := "930896af-bf8c-48d4-885c-6573a94b1853" in
  assert.is_uuid u = true
  /\ exists e,
       new (PoolFullError sample_constants sample_codeToErrorName)
         (VStr "network_uuid") (VStr u) = Ok e
       /\ obj_get e "name" = VStr "InvalidParamsError"
       /\ obj_get e "restCode" = VStr "InvalidParameters"
       /\ prop (obj_get e "body") "code" = VStr "InvalidParameters"
       /\ prop (obj_get e "body") "errors"
          = VArr [VObj [("field", VStr "network_uuid");
                        ("code", VStr "InvalidParameter");
                        ("message",
                         js_or
                           (VStr (util_format
                                    (fmt_POOL_FULL_MSG sample_constants) [u]))
                           (VStr (msg_INVALID_PARAMS sample_constants)))]].
Proof.
  intros u. split; [reflexivity|].
  apply PoolFullError_wire_shape. reflexivity.
Defined.

Lemma InvalidParamsError_returns_iff_witness :
  (exists e,
     new (InvalidParamsError sample_codeToErrorName)
       (VStr "Invalid parameters") (VArr [VObj [("field", VStr "mtu")]])
     = Ok e
     /\ obj_get e "message" = VStr "Invalid parameters")
  /\ exists x,
       new (InvalidParamsError sample_codeToErrorName)
         (VStr "Invalid parameters") (VArr [VStr "mtu"]) = Throw x.
Proof.
  split.
  - destruct (proj1 (InvalidParamsError_returns_iff sample_codeToErrorName
                       (VStr "Invalid parameters")
                       (VArr [VObj [("field", VStr "mtu")]])) eq_refl)
      as (e & He & Hm & _).
    exists e. split; [exact He|exact Hm].
  - exact (proj2 (InvalidParamsError_returns_iff sample_codeToErrorName
                    (VStr "Invalid parameters") (VArr [VStr "mtu"])) eq_refl).
Defined.

Lemma InternalError_message_witness :
  let c := VError "store unavailable" [] in
  (exists e,
     new (InternalError sample_codeToErrorName) c (VStr EmptyString) = Ok e
     /\ obj_get e "message" = VStr "Internal error"
     /\ prop (obj_get e "body") "message" = obj_get e "message")
  /\ exists e,
       new (InternalError sample_codeToErrorName) c (VStr "lookup failed")
       = Ok e
       /\ obj_get e "message" = VStr "lookup failed"
       /\ prop (obj_get e "body") "message" = obj_get e "message".
Proof.
  intros c. split.
  - exact (InternalError_message sample_codeToErrorName "store unavailable"
             [] EmptyString).
  - exact (InternalError_message sample_codeToErrorName "store unavailable"
             [] "lookup failed").
Defined.

(** X13: for a string field and an optional string message, the tests'
    [missingParam] and the one of [errors.js] return objects with the same
    properties; the tests' one is stricter and throws on a message that is
    neither a string nor absent, which the other accepts. *)
Theorem missingParam_agrees (field message : value) :
  (assert.is_string field = true ->
   assert.is_nullish message || assert.is_string message = true ->
   exists a b,
     helpers.missingParam field message = Ok a
     /\ missingParam field message = Ok b
     /\ forall k, prop a k = prop b k)
  /\ (assert.is_string field = true ->
      assert.is_nullish message || assert.is_string message = false ->
      helpers.missingParam field message = Throw (AssertionError "message")
      /\ exists b, missingParam field message = Ok b).
Proof.
  unfold helpers.missingParam, missingParam, assert.string,
    assert.optionalString.
  split; intros -> ->; simpl.
  - eexists _, _. split; [reflexivity|]. split; [reflexivity|].
    intros k. cbn [prop obj_get].
    destruct (String.eqb_spec "code" k) as [<-|]; [reflexivity|].
    destruct (String.eqb_spec "field" k) as [<-|]; reflexivity.
  - split; [done|]. by eexists.
Qed.

Lemma missingParam_agrees_witness :
  (assert.is_string (VStr "name") = true
   /\ assert.is_nullish VUndefined || assert.is_string VUndefined = true
   /\ exists a b,
        helpers.missingParam (VStr "name") VUndefined = Ok a
        /\ missingParam (VStr "name") VUndefined = Ok b
        /\ forall k, prop a k = prop b k)
  /\ (assert.is_nullish (VNum 5) || assert.is_string (VNum 5) = false
      /\ helpers.missingParam (VStr "name") (VNum 5)
         = Throw (AssertionError "message")
      /\ exists b, missingParam (VStr "name") (VNum 5) = Ok b).
Proof.
  split.
  - split; [reflexivity|]. split; [reflexivity|].
    exact (proj1 (missingParam_agrees (VStr "name") VUndefined)
             eq_refl eq_refl).
  - split; [reflexivity|].
    exact (proj2 (missingParam_agrees (VStr "name") (VNum 5))
             eq_refl eq_refl).
Defined.

(** ** Comparison functions and sorting, continued *)

Lemma string_ltb_irrefl (x : string) : String.ltb x x = false.
Proof.
  unfold String.ltb.
  destruct (String.compare x x) eqn:E; try done.
  pose proof (String.compare_antisym x x) as H. rewrite E in H. discriminate.
Qed.

Lemma string_ltb_asym (x y : string) :
  String.ltb x y = true -> String.ltb y x = false.
Proof.
  unfold String.ltb. rewrite (String.compare_antisym x y).
  by destruct (String.compare y x).
Qed.

Lemma string_ltb_total (x y : string) :
  String.ltb x y = false -> String.ltb y x = false -> x = y.
Proof.
  unfold String.ltb. intros H1 H2.
  apply String.compare_eq_iff.
  rewrite (String.compare_antisym x y) in H1.
  destruct (String.compare y x) eqn:E; simpl in *; try done.
  rewrite (String.compare_antisym y x) in E.
  destruct (String.compare x y); done.
Qed.

(** X5: on objects whose [id] is a string, [sortById] is a consistent
    comparison: swapping the arguments negates the result, the result is 0
    exactly for equal ids, and "not after" is transitive. *)
Theorem sortById_consistent (a b c : value) :
  assert.is_string (prop a "id") = true ->
  assert.is_string (prop b "id") = true ->
  assert.is_string (prop c "id") = true ->
  sortById a b = - sortById b a
  /\ (sortById a b = 0 <-> prop a "id" = prop b "id")
  /\ (sortById a b <= 0 -> sortById b c <= 0 -> sortById a c <= 0).
Proof.
  intros Ha Hb Hc.
  split; [|split].
  - unfold sortById, js_gt.
    destruct (prop a "id") as [| | | |x| | |]; try discriminate.
    destruct (prop b "id") as [| | | |y| | |]; try discriminate. simpl.
    destruct (String.ltb x y) eqn:E1.
    + by rewrite (string_ltb_asym _ _ E1).
    + by destruct (String.ltb y x).
  - unfold sortById, js_gt.
    destruct (prop a "id") as [| | | |x| | |]; try discriminate.
    destruct (prop b "id") as [| | | |y| | |]; try discriminate. simpl.
    destruct (String.ltb x y) eqn:E1; [|destruct (String.ltb y x) eqn:E2].
    + split; [done|]. intros [= ->]. by rewrite string_ltb_irrefl in E1.
    + split; [done|]. intros [= ->]. by rewrite string_ltb_irrefl in E2.
    + split; [|done]. intros _. f_equal. by apply string_ltb_total.
  - intros H1 H2.
    apply Z.leb_le in H1, H2. apply Z.leb_le.
    rewrite sortById_le in * by done.
    apply Is_true_true in H1, H2. apply Is_true_true.
    exact (transitivity (R := String.le) H1 H2).
Qed.

Lemma overlap_Forall2 (nets : list value) :
  Forall (fun net => getprop net "uuid" = Ok (VStr (uuid_of net))) nets ->
  Forall2 (fun net u => getprop net "uuid" = Ok (VStr u)) nets (uuid_of <$> nets).
Proof.
  induction 1; simpl; constructor; done.
Qed.

#[local] Instance le_by_trans k : Transitive (le_by k).
Proof. intros x y z. unfold le_by. apply transitivity. Qed.

Lemma overlap_sorted (us : list string) :
  Sorted (le_by "id") (Array_sort sortById (overlap_error <$> us)).
Proof.
  apply (Array_sort_sorted _ (fun e => assert.is_string (prop e "id") = true)).
  - intros a b Ha Hb. rewrite sortById_le by done.
    unfold le_by, String.le. by intros ->.
  - intros a b Ha Hb. rewrite sortById_le by done. apply string_leb_total.
  - apply Forall_fmap. by apply Forall_true.
Qed.

(** X6: for networks whose [uuid] is a string, [networkOverlapParams]
    returns, and returns the same array whatever the order in which the
    networks are listed. *)
Theorem networkOverlapParams_any_order (nets1 nets2 : list value) :
  Forall (fun net => getprop net "uuid" = Ok (VStr (uuid_of net))) nets1 ->
  nets1 ≡ₚ nets2 ->
  networkOverlapParams (VArr nets1) = networkOverlapParams (VArr nets2)
  /\ exists errs, networkOverlapParams (VArr nets1) = Ok (VArr errs).
Proof.
  intros H1 Hp.
  assert (H2 : Forall (fun net => getprop net "uuid" = Ok (VStr (uuid_of net))) nets2)
    by by rewrite <- Hp.
  unfold networkOverlapParams.
  rewrite (overlap_map _ _ (overlap_Forall2 _ H1)).
  rewrite (overlap_map _ _ (overlap_Forall2 _ H2)).
  split; [|by eexists]. cbn. do 2 f_equal.
  apply (Sorted_unique_strong (le_by "id")); [|apply overlap_sorted..|].
  - intros x1 x2 Hx1 Hx2 H12 H21.
    rewrite Array_sort_perm in Hx1, Hx2.
    apply list_elem_of_fmap in Hx1 as (u1 & -> & _).
    apply list_elem_of_fmap in Hx2 as (u2 & -> & _).
    unfold le_by in *. simpl in *.
    by rewrite (anti_symm String.le _ _ H12 H21).
  - rewrite !Array_sort_perm. by rewrite Hp.
Qed.

(** X7: if one of the networks has no string [uuid] (or is [undefined] or
    [null]), [networkOverlapParams] throws: it returns no partial list. *)
Theorem networkOverlapParams_bad_uuid (nets : list value) (net : value) :
  net ∈ nets ->
  (forall u, getprop net "uuid" <> Ok (VStr u)) ->
  exists e, networkOverlapParams (VArr nets) = Throw e.
Proof.
  intros Hin Hbad. unfold networkOverlapParams, Array_map.
  induction nets as [|n nets IH]; [by apply elem_of_nil in Hin|].
  cbn.
  destruct (getprop n "uuid") as [e|v] eqn:E; cbn; [by eexists|].
  destruct v as [| | | |u| | |]; cbn; try by eexists.
  apply elem_of_cons in Hin as [->|Hin]; [by destruct (Hbad u)|].
  destruct (IH Hin) as [e He]. cbn in He.
  destruct (mapM _ nets) as [e'|l]; cbn in *; [by eexists|discriminate].
Qed.

Lemma sortById_consistent_witness :
  let a := overlap_error "3c7f5393-7c69-4c7c-bc81-cb7aca031ff1" in
  let b := overlap_error "930896af-bf8c-48d4-885c-6573a94b1853" in
  let c := overlap_error "a0000000-0000-4000-8000-000000000000" in
  assert.is_string (prop a "id") = true
  /\ assert.is_string (prop b "id") = true
  /\ assert.is_string (prop c "id") = true
  /\ sortById a b = - sortById b a
  /\ (sortById a b = 0 <-> prop a "id" = prop b "id")
  /\ (sortById a b <= 0 -> sortById b c <= 0 -> sortById a c <= 0).
Proof.
  intros a b c. split; [reflexivity|]. split; [reflexivity|].
  split; [reflexivity|].
  exact (sortById_consistent a b c eq_refl eq_refl eq_refl).
Defined.

Lemma networkOverlapParams_any_order_witness :
  let n1 := VObj [("uuid", VStr "930896af-bf8c-48d4-885c-6573a94b1853")] in
  let n2 := VObj [("uuid", VStr "3c7f5393-7c69-4c7c-bc81-cb7aca031ff1")] in
  Forall (fun net => getprop net "uuid" = Ok (VStr (uuid_of net))) [n1; n2]
  /\ [n1; n2] ≡ₚ [n2; n1]
  /\ networkOverlapParams (VArr [n1; n2])
     = networkOverlapParams (VArr [n2; n1])
  /\ exists errs, networkOverlapParams (VArr [n1; n2]) = Ok (VArr errs).
Proof.
  intros n1 n2.
  assert (Hf : Forall (fun net =>
                         getprop net "uuid" = Ok (VStr (uuid_of net)))
                 [n1; n2]) by (repeat constructor).
  assert (Hp : [n1; n2] ≡ₚ [n2; n1]) by apply Permutation_swap.
  split; [exact Hf|]. split; [exact Hp|].
  exact (networkOverlapParams_any_order [n1; n2] [n2; n1] Hf Hp).
Defined.

Lemma networkOverlapParams_bad_uuid_witness :
  let good := VObj [("uuid", VStr "930896af-bf8c-48d4-885c-6573a94b1853")] in
  let bad := VObj [("name", VStr "net0")] in
  bad ∈ [good; bad]
  /\ (forall u, getprop bad "uuid" <> Ok (VStr u))
  /\ exists e, networkOverlapParams (VArr [good; bad]) = Throw e.
Proof.
  intros good bad.
  assert (Hin : bad ∈ [good; bad]) by (right; left).
  assert (Hbad : forall u, getprop bad "uuid" <> Ok (VStr u))
    by (intros u; discriminate).
  split; [exact Hin|]. split; [exact Hbad|].
  exact (networkOverlapParams_bad_uuid [good; bad] bad Hin Hbad).
Defined.

Lemma Array_sort_fixed cmp (l : list value) :
  Sorted (fun a b => (cmp a b <=? 0) = true) l -> Array_sort cmp l = l.
Proof.
  induction l as [|x l IH]; simpl; intros Hs; [done|].
  apply Sorted_inv in Hs as [Hs Hhd]. rewrite IH by done.
  destruct l as [|y l]; simpl; [done|].
  apply HdRel_inv in Hhd. by rewrite Hhd.
Qed.

Lemma string_fields_objects (errs : list value) :
  Forall (fun e => assert.is_string (prop e "field") = true) errs ->
  forallb assert.is_object errs = true.
Proof.
  intros Hf. apply forallb_forall. intros e He. rewrite Forall_forall in Hf.
  apply (has_string_is_object "field"). apply Hf. by apply list_elem_of_In.
Qed.

Lemma byField_sorted (errs : list value) :
  Forall (fun e => assert.is_string (prop e "field") = true) errs ->
  Sorted (fun a b => (byField a b <=? 0) = true) (Array_sort byField errs).
Proof.
  apply (Array_sort_sorted _ (fun e => assert.is_string (prop e "field") = true)).
  - done.
  - intros a b Ha Hb. rewrite !byField_le by done. intros H.
    apply string_leb_total in H. by apply Is_true_true.
Qed.

(** X8: on an array of objects whose [field] is a string,
    [sortErrsByField] is idempotent: sorting the sorted array changes
    nothing. *)
Theorem sortErrsByField_idempotent (errs : list value) :
  Forall (fun e => assert.is_string (prop e "field") = true) errs ->
  exists out,
    sortErrsByField (VArr errs) = Ok (VArr out)
    /\ sortErrsByField (VArr out) = Ok (VArr out).
Proof.
  intros Hf. exists (Array_sort byField errs).
  unfold sortErrsByField, assert.arrayOfObject.
  rewrite (string_fields_objects _ Hf).
  rewrite (string_fields_objects (Array_sort byField errs))
    by by apply Array_sort_Forall.
  simpl. split; [done|].
  by rewrite (Array_sort_fixed byField _ (byField_sorted _ Hf)).
Qed.

(** X9: the tests' [fieldSort] never returns 0; on objects whose [field] is
    a string it puts [a] after [b] exactly when the comparison of
    [sortErrsByField] does, but for equal fields it answers -1 both ways,
    where that comparison answers 0: it is not a consistent comparison. *)
Theorem fieldSort_not_consistent (a b : value) :
  assert.is_string (prop a "field") = true ->
  assert.is_string (prop b "field") = true ->
  helpers.fieldSort a b <> 0
  /\ (helpers.fieldSort a b = 1 <-> byField a b = 1)
  /\ (prop a "field" = prop b "field" ->
      helpers.fieldSort a b = -1 /\ helpers.fieldSort b a = -1
      /\ byField a b = 0).
Proof.
  intros Ha Hb. unfold helpers.fieldSort, byField, js_gt.
  destruct (prop a "field") as [| | | |x| | |]; try discriminate.
  destruct (prop b "field") as [| | | |y| | |]; try discriminate. simpl.
  split; [by destruct (String.ltb y x)|]. split.
  - destruct (String.ltb x y) eqn:E1.
    + rewrite (string_ltb_asym _ _ E1). split; discriminate.
    + by destruct (String.ltb y x).
  - intros [= ->]. by rewrite string_ltb_irrefl.
Qed.

Lemma sortErrsByField_idempotent_witness :
  let errs :=
    [VObj [("field", VStr "vlan_id")]; VObj [("field", VStr "name")]] in
  Forall (fun e => assert.is_string (prop e "field") = true) errs
  /\ exists out,
       sortErrsByField (VArr errs) = Ok (VArr out)
       /\ sortErrsByField (VArr out) = Ok (VArr out).
Proof.
  intros errs.
  assert (Hf : Forall (fun e => assert.is_string (prop e "field") = true)
                 errs) by (repeat constructor).
  split; [exact Hf|]. exact (sortErrsByField_idempotent errs Hf).
Defined.

Lemma fieldSort_not_consistent_witness :
  let a := VObj [("field", VStr "name")] in
  let b := VObj [("field", VStr "name"); ("code", VStr "Duplicate")] in
  assert.is_string (prop a "field") = true
  /\ assert.is_string (prop b "field") = true
  /\ helpers.fieldSort a b <> 0
  /\ (helpers.fieldSort a b = 1 <-> byField a b = 1)
  /\ (prop a "field" = prop b "field" ->
      helpers.fieldSort a b = -1 /\ helpers.fieldSort b a = -1
      /\ byField a b = 0).
Proof.
  intros a b. split; [reflexivity|]. split; [reflexivity|].
  exact (fieldSort_not_consistent a b eq_refl eq_refl).
Defined.

(** ** The test helpers' globals *)

Section HelpersMore.
Context {IPAddr : Type}.
Variable toIPAddr : string -> option IPAddr.
Variable ipAddrPlus : IPAddr -> Z -> result IPAddr.
Variable toString : IPAddr -> string.

Local Abbreviation next_ip :=
  (nextProvisionableIP toIPAddr ipAddrPlus toString).

(** X14: whatever it returns or throws, a call of [nextProvisionableIP]
    for one network leaves the tracker of every other network, and the
    counter [NET_NUM], as they were. *)
Theorem nextProvisionableIP_frame (net : network) (w : value)
    (g : globals IPAddr) (u : string) :
  u <> uuid net ->
  NET_IPS (fst (next_ip net w g)) !! u = NET_IPS g !! u
  /\ NET_NUM (fst (next_ip net w g)) = NET_NUM g.
Proof.
  intros Hu.
  unfold nextProvisionableIP, mbind, helper_bind, lift, read_NET_IPS,
    write_NET_IPS, mret, helper_ret.
  destruct (assert.optionalBool w "willFail") as [e|[]]; simpl; [done|].
  destruct (NET_IPS g !! uuid net) as [a|] eqn:E; simpl.
  - rewrite E. simpl. destruct (truthy w); simpl.
    + by destruct (deref _ a).
    + destruct a as [a|]; simpl; [|done].
      destruct (ipAddrPlus a 1); simpl; [done|].
      by rewrite lookup_insert_ne.
  - destruct (assert.string _ _) as [e|[]]; simpl; [done|].
    destruct (match provision_start_ip net with VStr s => toIPAddr s | _ => None end)
      as [a|]; simpl.
    + rewrite lookup_insert_eq. simpl. destruct (truthy w); simpl.
      * by rewrite lookup_insert_ne.
      * destruct (ipAddrPlus a 1); simpl; by rewrite ?lookup_insert_ne by done.
    + by rewrite lookup_insert_ne.
Qed.

(** X15: after [reset()] the counter is 2 and every tracker is gone: the
    next address of any network is its [provision_start_ip] again, whatever
    was handed out before. *)
Theorem nextProvisionableIP_after_reset (net : network) (g : globals IPAddr)
    (s : string) (a : IPAddr) :
  provision_start_ip net = VStr s ->
  toIPAddr s = Some a ->
  let g0 := fst (reset IPAddr g) in
  NET_NUM g0 = 2
  /\ snd (next_ip net (VBool true) g0) = Ok (toString a)
  /\ forall nxt,
       ipAddrPlus a 1 = Ok nxt ->
       next_ip net VUndefined g0 = (set_tracker g0 net nxt, Ok (toString a)).
Proof.
  intros Hs Ha g0.
  assert (Ht : tracker toIPAddr g0 net = Some a).
  { unfold tracker. subst g0. simpl. rewrite lookup_empty. by rewrite Hs. }
  split; [done|]. split.
  - by rewrite (next_ip_willFail _ _ _ _ _ _ Ht).
  - intros nxt Hn. apply next_ip_advance; auto.
Qed.

(** X16: a first call for a network whose [provision_start_ip] is no
    address throws the assertion on the tracker and leaves a null tracker
    behind; a later call for the same UUID, even with the range corrected,
    throws a TypeError instead of starting over. *)
Theorem nextProvisionableIP_bad_start (net net' : network)
    (g : globals IPAddr) (s : string) :
  NET_IPS g !! uuid net = None ->
  provision_start_ip net = VStr s ->
  toIPAddr s = None ->
  uuid net' = uuid net ->
  let g1 := fst (next_ip net (VBool true) g) in
  snd (next_ip net (VBool true) g) = Throw (AssertionError "NET_IPS[net.uuid]")
  /\ NET_IPS g1 !! uuid net = Some None
  /\ next_ip net' (VBool true) g1
     = (g1, Throw (TypeError "Cannot read property of null")).
Proof.
  intros Hg Hs Hp Hu.
  assert (Hcall : next_ip net (VBool true) g
            = ({| NET_NUM := NET_NUM g;
                  NET_IPS := <[uuid net := None]> (NET_IPS g) |},
               Throw (AssertionError "NET_IPS[net.uuid]"))).
  { unfold nextProvisionableIP, mbind, helper_bind, lift, read_NET_IPS,
      write_NET_IPS, mret, helper_ret.
    simpl. rewrite Hg, Hs. simpl. by rewrite Hp. }
  rewrite Hcall. simpl. split; [done|]. split; [by rewrite lookup_insert_eq|].
  unfold nextProvisionableIP, mbind, helper_bind, lift, read_NET_IPS,
    write_NET_IPS, mret, helper_ret.
  simpl. rewrite Hu, lookup_insert_eq. simpl. by rewrite lookup_insert_eq.
Qed.

(** X17: [n] calls in a row (with [willFail] omitted) return the current
    address and the [n - 1] addresses after it, one step of [ipAddrPlus]
    apart, and leave the tracker on the address after the last. *)
Theorem calls_count_up (net : network) (n : nat) (addr : nat -> IPAddr) :
  (forall i, (i < n)%nat -> ipAddrPlus (addr i) 1 = Ok (addr (S i))) ->
  forall g,
    tracker toIPAddr g net = Some (addr O) ->
    snd (helpers.calls toIPAddr ipAddrPlus toString net n g)
    = (fun i => Ok (toString (addr i))) <$> seq 0 n
    /\ tracker toIPAddr
         (fst (helpers.calls toIPAddr ipAddrPlus toString net n g)) net
       = Some (addr n).
Proof.
  revert addr. induction n as [|n IH]; intros addr Hstep g Ht.
  - by split.
  - simpl.
    rewrite (next_ip_advance toIPAddr ipAddrPlus toString net g
               (addr O) (addr 1%nat) VUndefined Ht (or_introl eq_refl)
               (Hstep O (Nat.lt_0_succ n))).
    destruct (IH (fun i => addr (S i))
                 (fun i Hi => Hstep (S i) (proj1 (Nat.succ_lt_mono i n) Hi))
                 (set_tracker g net (addr 1%nat))
                 (tracker_set toIPAddr _ _ _)) as [Hsnd Hfst].
    destruct (helpers.calls _ _ _ net n _) as [g2 rs]. simpl in *.
    split; [|done].
    rewrite Hsnd. f_equal. by rewrite <- fmap_S_seq, <- list_fmap_compose.
Qed.

End HelpersMore.

Lemma list_ascii_app (s t : string) :
  String.list_ascii_of_string (s +:+ t)
  = String.list_ascii_of_string s ++ String.list_ascii_of_string t.
Proof. induction s as [|c s IH]; simpl; [done|]. by rewrite IH. Qed.

Lemma string_app_inv_tail (s1 s2 t : string) :
  s1 +:+ t = s2 +:+ t -> s1 = s2.
Proof.
  intros H. apply (f_equal String.list_ascii_of_string) in H.
  rewrite !list_ascii_app in H. apply app_inv_tail in H.
  rewrite <- (String.string_of_list_ascii_of_string s1),
          <- (String.string_of_list_ascii_of_string s2).
  by rewrite H.
Qed.

Section NetworkParams.

Context {IPAddr : Type}.
Variable MTU_DEFAULT : value.

(** X18: [validIPv4NetworkParams] moves [NET_NUM] up by one and touches
    nothing else; calls made at different values of the counter, with
    overrides that set neither, give different names and different
    subnets. *)
Theorem validIPv4NetworkParams_fresh (override override' : value)
    (g g' : globals IPAddr) :
  obj_has (enum_props override) "name" = false ->
  obj_has (enum_props override) "subnet" = false ->
  obj_has (enum_props override') "name" = false ->
  obj_has (enum_props override') "subnet" = false ->
  NET_NUM g <> NET_NUM g' ->
  exists p p',
    helpers.validIPv4NetworkParams MTU_DEFAULT override g
    = ({| NET_NUM := NET_NUM g + 1; NET_IPS := NET_IPS g |}, Ok (VObj p))
    /\ helpers.validIPv4NetworkParams MTU_DEFAULT override' g'
       = ({| NET_NUM := NET_NUM g' + 1; NET_IPS := NET_IPS g' |},
          Ok (VObj p'))
    /\ obj_get p "name" <> obj_get p' "name"
    /\ obj_get p "subnet" <> obj_get p' "subnet".
Proof.
  intros Hn Hs Hn' Hs' Hne. unfold helpers.validIPv4NetworkParams.
  eexists _, _. split; [reflexivity|]. split; [reflexivity|].
  rewrite !obj_get_copy_props by done.
  split.
  - intros [= H]. apply (inj (String.app EmptyString)) in H.
    by apply (inj pretty) in H.
  - intros [= H]. apply (inj (String.app EmptyString)) in H.
    apply string_app_inv_tail in H. by apply (inj pretty) in H.
Qed.
End NetworkParams.

Lemma nextProvisionableIP_frame_witness :
  let other := "0e56fe34-39a3-42d5-86c7-d719487f892b" in
  let g := set_tracker sample_globals
             {| uuid := other; provision_start_ip := VStr "10.0.3.1" |}
             167772929 in
  let g1 :=
    fst (nextProvisionableIP ip4.toIPAddr ip4.ipAddrPlus ip4.toString
           sample_net VUndefined g) in
  other <> uuid sample_net
  /\ NET_IPS g1 !! other = NET_IPS g !! other
  /\ NET_NUM g1 = NET_NUM g.
Proof.
  intros other g g1.
  assert (Hne : other <> uuid sample_net) by discriminate.
  split; [exact Hne|].
  exact (nextProvisionableIP_frame ip4.toIPAddr ip4.ipAddrPlus ip4.toString
           sample_net VUndefined g other Hne).
Defined.

Lemma nextProvisionableIP_after_reset_witness :
  let g := set_tracker sample_globals sample_net 167772700 in
  let g0 := fst (reset Z g) in
  provision_start_ip sample_net = VStr "10.0.2.1"
  /\ ip4.toIPAddr "10.0.2.1" = Some 167772673
  /\ NET_NUM g0 = 2
  /\ snd (nextProvisionableIP ip4.toIPAddr ip4.ipAddrPlus ip4.toString
            sample_net (VBool true) g0)
     = Ok (ip4.toString 167772673)
  /\ forall nxt,
       ip4.ipAddrPlus 167772673 1 = Ok nxt ->
       nextProvisionableIP ip4.toIPAddr ip4.ipAddrPlus ip4.toString
         sample_net VUndefined g0
       = (set_tracker g0 sample_net nxt, Ok (ip4.toString 167772673)).
Proof.
  intros g g0. split; [reflexivity|]. split; [reflexivity|].
  exact (nextProvisionableIP_after_reset ip4.toIPAddr ip4.ipAddrPlus
           ip4.toString sample_net g "10.0.2.1" 167772673 eq_refl eq_refl).
Defined.

Lemma nextProvisionableIP_bad_start_witness :
  let net := {| uuid := "3c7f5393-7c69-4c7c-bc81-cb7aca031ff1";
                provision_start_ip := VStr "10.0.2" |} in
  let g1 :=
    fst (nextProvisionableIP ip4.toIPAddr ip4.ipAddrPlus ip4.toString
           net (VBool true) sample_globals) in
  NET_IPS sample_globals !! uuid net = None
  /\ provision_start_ip net = VStr "10.0.2"
  /\ ip4.toIPAddr "10.0.2" = None
  /\ uuid sample_net = uuid net
  /\ snd (nextProvisionableIP ip4.toIPAddr ip4.ipAddrPlus ip4.toString
            net (VBool true) sample_globals)
     = Throw (AssertionError "NET_IPS[net.uuid]")
  /\ NET_IPS g1 !! uuid net = Some None
  /\ nextProvisionableIP ip4.toIPAddr ip4.ipAddrPlus ip4.toString
       sample_net (VBool true) g1
     = (g1, Throw (TypeError "Cannot read property of null")).
Proof.
  intros net g1. split; [reflexivity|]. split; [reflexivity|].
  split; [reflexivity|]. split; [reflexivity|].
  exact (nextProvisionableIP_bad_start ip4.toIPAddr ip4.ipAddrPlus
           ip4.toString net sample_net sample_globals "10.0.2"
           eq_refl eq_refl eq_refl eq_refl).
Defined.

Lemma calls_count_up_witness :
  let addr := fun i : nat => 167772673 + Z.of_nat i in
  (forall i, (i < 3)%nat -> ip4.ipAddrPlus (addr i) 1 = Ok (addr (S i)))
  /\ tracker ip4.toIPAddr sample_globals sample_net = Some (addr O)
  /\ snd (helpers.calls ip4.toIPAddr ip4.ipAddrPlus ip4.toString
            sample_net 3 sample_globals)
     = (fun i => Ok (ip4.toString (addr i))) <$> seq 0 3
  /\ tracker ip4.toIPAddr
       (fst (helpers.calls ip4.toIPAddr ip4.ipAddrPlus ip4.toString
               sample_net 3 sample_globals)) sample_net
     = Some (addr 3%nat).
Proof.
  intros addr.
  assert (Hstep : forall i, (i < 3)%nat ->
                    ip4.ipAddrPlus (addr i) 1 = Ok (addr (S i))).
  { intros i Hi. destruct i as [|[|[|i]]]; [reflexivity..|lia]. }
  split; [exact Hstep|]. split; [reflexivity|].
  exact (calls_count_up ip4.toIPAddr ip4.ipAddrPlus ip4.toString
           sample_net 3 addr Hstep sample_globals eq_refl).
Defined.

Example calls_sample :
  snd (helpers.calls ip4.toIPAddr ip4.ipAddrPlus ip4.toString
         sample_net 3 sample_globals)
  = [Ok "10.0.2.1"; Ok "10.0.2.2"; Ok "10.0.2.3"].
Proof. vm_compute. reflexivity. Qed.

Lemma validIPv4NetworkParams_fresh_witness :
  let g := sample_globals in
  let g' := {| NET_NUM := 3; NET_IPS := NET_IPS sample_globals |} in
  let override := VObj [("vlan_id", VNum 46)] in
  obj_has (enum_props override) "name" = false
  /\ obj_has (enum_props override) "subnet" = false
  /\ obj_has (enum_props VUndefined) "name" = false
  /\ obj_has (enum_props VUndefined) "subnet" = false
  /\ NET_NUM g <> NET_NUM g'
  /\ exists p p',
       helpers.validIPv4NetworkParams (VNum 1500) override g
       = ({| NET_NUM := NET_NUM g + 1; NET_IPS := NET_IPS g |}, Ok (VObj p))
       /\ helpers.validIPv4NetworkParams (VNum 1500) VUndefined g'
          = ({| NET_NUM := NET_NUM g' + 1; NET_IPS := NET_IPS g' |},
             Ok (VObj p'))
       /\ obj_get p "name" <> obj_get p' "name"
       /\ obj_get p "subnet" <> obj_get p' "subnet".
Proof.
  intros g g' override.
  assert (Hne : NET_NUM g <> NET_NUM g') by discriminate.
  split; [reflexivity|]. split; [reflexivity|]. split; [reflexivity|].
  split; [reflexivity|]. split; [exact Hne|].
  exact (validIPv4NetworkParams_fresh (VNum 1500) override VUndefined g g'
           eq_refl eq_refl eq_refl eq_refl Hne).
Defined.

Example validIPv4NetworkParams_sample :
  snd (helpers.validIPv4NetworkParams (VNum 1500) VUndefined sample_globals)
  = Ok (VObj [("name", VStr "myname2");
              ("nic_tag", VStr "nic_tag");
              ("provision_end_ip", VStr "10.0.2.254");
              ("provision_start_ip", VStr "10.0.2.1");
              ("resolvers", VArr [VStr "8.8.8.8"; VStr "8.8.4.4"]);
              ("subnet", VStr "10.0.2.0/24");
              ("vlan_id", VNum 0);
              ("mtu", VNum 1500)]).
Proof. vm_compute. reflexivity. Qed.
